(** * Two blocks and a wall: the exact-rational collision kernel

    A shallow embedding of [Block2D] and [Simulation] of [simulation.py]
    (the pygame drawing and event code is not part of the kernel), and the
    properties of the kernel that the specification states.

    Python's [fractions.Fraction] is an arbitrary-precision rational kept in
    lowest terms with a positive denominator: it is embedded as [Qc], the
    canonical rationals of the Standard Library, whose equality is Leibniz
    equality of numerator and denominator.  Python exceptions are embedded
    in the error monad [result]. *)

From Stdlib Require Import ZArith Zpow_facts Zdivisibility QArith Qcanon Lia Lqa Bool List.
Import ListNotations.

Local Open Scope Z_scope.

(** ** Exceptions and the error monad *)

(** The two exceptions the kernel can raise.  [OutOfFuel] is not a Python
    exception: it marks the exhaustion of the fuel of the embedded [while]
    loop of [limit_denominator], and [limit_denominator_total] shows that it
    never arises. *)
Inductive exn : Type :=
| ZeroDivisionError
| ValueError
| OutOfFuel.

Inductive result (A : Type) : Type :=
| Ok (a : A)
| Raise (e : exn).

Arguments Ok {A} a.
Arguments Raise {A} e.

Definition bind {A B : Type} (m : result A) (f : A -> result B) : result B :=
  match m with
  | Ok a => f a
  | Raise e => Raise e
  end.

Notation "x <- m ;; k" := (bind m (fun x => k))
  (at level 61, m at next level, right associativity).

Notation "' pat <- m ;; k" := (bind m (fun x => match x with pat => k end))
  (at level 61, pat pattern, m at next level, right associativity).

(** ** Fractions *)

Module Fraction.

(** [Fraction(n)] for an integer [n]. *)
Definition of_int (n : Z) : Qc := Q2Qc (inject_Z n).

(** [Fraction(n, d)] for a positive literal denominator. *)
Definition make (n : Z) (d : positive) : Qc := Q2Qc (n # d).

Definition numerator (x : Qc) : Z := Qnum (this x).
Definition denominator (x : Qc) : Z := Zpos (Qden (this x)).

(** [a <= b] and [a < b] on fractions, as the tests of an [if]. *)
Definition leb (a b : Qc) : bool := Qle_bool a b.
Definition ltb (a b : Qc) : bool := negb (Qle_bool b a).

(** [a / b]: [Fraction.__truediv__] raises [ZeroDivisionError] on a zero
    divisor. *)
Definition truediv (a b : Qc) : result Qc :=
  if Qc_eq_dec b (of_int 0) then Raise ZeroDivisionError else Ok (a / b)%Qc.

(** The [while True] loop of [Fraction.limit_denominator], of the module
    [fractions] of Python's standard library, which [simulation.py] imports;
    it returns the variables at the [break].  [n // d] is Python's floor
    division, which is [Z.div], and raises on [d = 0].
<<
    while True:
        a = n//d
        q2 = q0+a*q1
        if q2 > max_denominator:
            break
        p0, q0, p1, q1 = p1, q1, p0+a*p1, q2
        n, d = d, n-a*d
>> *)
Fixpoint limit_loop (fuel : nat) (max_denominator p0 q0 p1 q1 n d : Z)
  : result (Z * Z * Z * Z * Z) :=
  match fuel with
  | O => Raise OutOfFuel
  | S fuel' =>
      if d =? 0 then Raise ZeroDivisionError
      else
        let a := n / d in
        let q2 := q0 + a * q1 in
        if q2 >? max_denominator then Ok (p0, q0, p1, q1, d)
        else limit_loop fuel' max_denominator p1 q1 (p0 + a * p1) q2 d (n - a * d)
  end.

(** Enough iterations for the loop on a fraction of denominator [den]: the
    product of the pair [(n, d)] at least halves with every iteration. *)
Definition loop_fuel (den : positive) : nat := S (S (2 * Pos.size_nat den)).

(** [x.limit_denominator(max_denominator)]: the closest fraction to [x] with
    denominator at most [max_denominator].  The source builds its result
    with [_normalize=False]; [Q2Qc] reduces to lowest terms, which is the
    identity here ([limit_denominator_large]).
<<
    if max_denominator < 1: raise ValueError(...)
    if self._denominator <= max_denominator: return Fraction(self)
    p0, q0, p1, q1 = 0, 1, 1, 0
    n, d = self._numerator, self._denominator
    while True: ...
    k = (max_denominator-q0)//q1
    if 2*d*(q0+k*q1) <= self._denominator:
        return Fraction(p1, q1, _normalize=False)
    else:
        return Fraction(p0+k*p1, q0+k*q1, _normalize=False)
>> *)
Definition limit_denominator (x : Qc) (max_denominator : Z) : result Qc :=
  if max_denominator <? 1 then Raise ValueError
  else if denominator x <=? max_denominator then Ok x
  else
    '(p0, q0, p1, q1, d) <-
      limit_loop (loop_fuel (Qden (this x))) max_denominator
                 0 1 1 0 (numerator x) (denominator x) ;;
    if q1 =? 0 then Raise ZeroDivisionError
    else
      let k := (max_denominator - q0) / q1 in
      if 2 * d * (q0 + k * q1) <=? denominator x
      then Ok (Q2Qc (p1 # Z.to_pos q1))
      else Ok (Q2Qc ((p0 + k * p1) # Z.to_pos (q0 + k * q1))).

End Fraction.

(** ** Blocks *)

Module Block2D.

Record t : Type := mk {
  mass : Qc;
  v : Qc;
  x : Qc;
  size : Qc
}.

(** [Block2D.__init__(self, mass, v, x, size=30)]: every argument goes
    through [Fraction(...).limit_denominator(10**9)].  An argument is given
    by the rational it denotes (an [int], a finite [float] and a [Fraction]
    all denote one). *)
Definition init (mass v x size : Qc) : result t :=
  mass' <- Fraction.limit_denominator mass (10 ^ 9) ;;
  v' <- Fraction.limit_denominator v (10 ^ 9) ;;
  x' <- Fraction.limit_denominator x (10 ^ 9) ;;
  size' <- Fraction.limit_denominator size (10 ^ 9) ;;
  Ok {| mass := mass'; v := v'; x := x'; size := size' |}.

Definition set_v (self : t) (v' : Qc) : t :=
  {| mass := mass self; v := v'; x := x self; size := size self |}.

Definition set_x (self : t) (x' : Qc) : t :=
  {| mass := mass self; v := v self; x := x'; size := size self |}.

(** [Block2D.simplify(self, max_denominator)]: velocity, then position;
    mass and size are left alone. *)
Definition simplify (self : t) (max_denominator : Z) : result t :=
  v' <- Fraction.limit_denominator (v self) max_denominator ;;
  x' <- Fraction.limit_denominator (x self) max_denominator ;;
  Ok (set_x (set_v self v') x').

End Block2D.

(** ** The simulation *)

(** The value of [detect_collisions]: the source returns one of the strings
    ["wall_0"], ["wall_1"], ["blocks"], or [None]; the strings are the
    constructors here and [None] is [None] of [option]. *)
Inductive collision : Type :=
| wall_0
| wall_1
| blocks.

Module Simulation.

Local Open Scope Qc_scope.

Record t : Type := mk {
  width : Z;
  block_0 : Block2D.t;
  block_1 : Block2D.t;
  wall_collisions : Z;
  block_collisions : Z;
  total_collisions : Z;
  time_step : Qc;
  simulation_speed : Z;
  simplify_interval : Z;
  simplify_counter : Z;
  simplify_denominator : Z;
  total_energy : Qc;
  total_momentum : Qc;
  initial_energy : Qc;
  initial_momentum : Qc;
  paused : bool
}.

Definition set_block_0 (self : t) (b : Block2D.t) : t :=
  mk (width self) b (block_1 self) (wall_collisions self)
     (block_collisions self) (total_collisions self) (time_step self)
     (simulation_speed self) (simplify_interval self) (simplify_counter self)
     (simplify_denominator self) (total_energy self) (total_momentum self)
     (initial_energy self) (initial_momentum self) (paused self).

Definition set_block_1 (self : t) (b : Block2D.t) : t :=
  mk (width self) (block_0 self) b (wall_collisions self)
     (block_collisions self) (total_collisions self) (time_step self)
     (simulation_speed self) (simplify_interval self) (simplify_counter self)
     (simplify_denominator self) (total_energy self) (total_momentum self)
     (initial_energy self) (initial_momentum self) (paused self).

(** The three collision counters at once: [wall], [block], [total]. *)
Definition set_counters (self : t) (wall block total : Z) : t :=
  mk (width self) (block_0 self) (block_1 self) wall block total
     (time_step self) (simulation_speed self) (simplify_interval self)
     (simplify_counter self) (simplify_denominator self) (total_energy self)
     (total_momentum self) (initial_energy self) (initial_momentum self)
     (paused self).

Definition set_time_step (self : t) (ts : Qc) : t :=
  mk (width self) (block_0 self) (block_1 self) (wall_collisions self)
     (block_collisions self) (total_collisions self) ts
     (simulation_speed self) (simplify_interval self) (simplify_counter self)
     (simplify_denominator self) (total_energy self) (total_momentum self)
     (initial_energy self) (initial_momentum self) (paused self).

Definition set_simulation_speed (self : t) (speed : Z) : t :=
  mk (width self) (block_0 self) (block_1 self) (wall_collisions self)
     (block_collisions self) (total_collisions self) (time_step self)
     speed (simplify_interval self) (simplify_counter self)
     (simplify_denominator self) (total_energy self) (total_momentum self)
     (initial_energy self) (initial_momentum self) (paused self).

Definition set_simplify_counter (self : t) (c : Z) : t :=
  mk (width self) (block_0 self) (block_1 self) (wall_collisions self)
     (block_collisions self) (total_collisions self) (time_step self)
     (simulation_speed self) (simplify_interval self) c
     (simplify_denominator self) (total_energy self) (total_momentum self)
     (initial_energy self) (initial_momentum self) (paused self).

Definition set_simplify_denominator (self : t) (dn : Z) : t :=
  mk (width self) (block_0 self) (block_1 self) (wall_collisions self)
     (block_collisions self) (total_collisions self) (time_step self)
     (simulation_speed self) (simplify_interval self) (simplify_counter self)
     dn (total_energy self) (total_momentum self)
     (initial_energy self) (initial_momentum self) (paused self).

(** [total_energy] and [total_momentum] at once. *)
Definition set_totals (self : t) (e m : Qc) : t :=
  mk (width self) (block_0 self) (block_1 self) (wall_collisions self)
     (block_collisions self) (total_collisions self) (time_step self)
     (simulation_speed self) (simplify_interval self) (simplify_counter self)
     (simplify_denominator self) e m
     (initial_energy self) (initial_momentum self) (paused self).

(** [initial_energy] and [initial_momentum] at once. *)
Definition set_initials (self : t) (e m : Qc) : t :=
  mk (width self) (block_0 self) (block_1 self) (wall_collisions self)
     (block_collisions self) (total_collisions self) (time_step self)
     (simulation_speed self) (simplify_interval self) (simplify_counter self)
     (simplify_denominator self) (total_energy self) (total_momentum self)
     e m (paused self).

Definition set_paused (self : t) (p : bool) : t :=
  mk (width self) (block_0 self) (block_1 self) (wall_collisions self)
     (block_collisions self) (total_collisions self) (time_step self)
     (simulation_speed self) (simplify_interval self) (simplify_counter self)
     (simplify_denominator self) (total_energy self) (total_momentum self)
     (initial_energy self) (initial_momentum self) p.

Definition two : Qc := Fraction.of_int 2.

(** The kinetic energy and the momentum of two blocks, exact. *)
Definition energy_of (b0 b1 : Block2D.t) : Qc :=
  Block2D.mass b0 * Block2D.v b0 ^ 2 / two
  + Block2D.mass b1 * Block2D.v b1 ^ 2 / two.

Definition momentum_of (b0 b1 : Block2D.t) : Qc :=
  Block2D.mass b0 * Block2D.v b0 + Block2D.mass b1 * Block2D.v b1.

(** [Simulation._total_energy] and [Simulation._total_momentum]: they read
    [self.block_0] and [self.block_1] only, and cap with the literal
    [10**9]. *)
Definition _total_energy (b0 b1 : Block2D.t) : result Qc :=
  Fraction.limit_denominator (energy_of b0 b1) (10 ^ 9).

Definition _total_momentum (b0 b1 : Block2D.t) : result Qc :=
  Fraction.limit_denominator (momentum_of b0 b1) (10 ^ 9).

(** [Simulation.__init__(self, width)]. *)
Definition init (width : Z) : result t :=
  b0 <- Block2D.init (Fraction.of_int 1) (Fraction.of_int 0)
                     (Fraction.of_int 150) (Fraction.of_int 30) ;;
  b1 <- Block2D.init (Fraction.of_int 10000) (Fraction.of_int (-5))
                     (Fraction.of_int 600) (Fraction.of_int 60) ;;
  ts <- Fraction.limit_denominator (Fraction.make 1 100) (10 ^ 9) ;;
  e <- _total_energy b0 b1 ;;
  m <- _total_momentum b0 b1 ;;
  Ok {| width := width;
        block_0 := b0;
        block_1 := b1;
        wall_collisions := 0;
        block_collisions := 0;
        total_collisions := 0;
        time_step := ts;
        simulation_speed := 2 ^ 8;
        simplify_interval := 100;
        simplify_counter := 0;
        simplify_denominator := 10 ^ 9;
        total_energy := e;
        total_momentum := m;
        initial_energy := e;
        initial_momentum := m;
        paused := false |}.

(** [Simulation.mass_ratio]. *)
Definition mass_ratio (self : t) : result Qc :=
  Fraction.truediv (Block2D.mass (block_1 self)) (Block2D.mass (block_0 self)).

(** [Simulation.simplify_fractions]. *)
Definition simplify_fractions (self : t) : result t :=
  b0 <- Block2D.simplify (block_0 self) (simplify_denominator self) ;;
  b1 <- Block2D.simplify (block_1 self) (simplify_denominator self) ;;
  ts <- Fraction.limit_denominator (time_step self) (simplify_denominator self) ;;
  Ok (set_time_step (set_block_1 (set_block_0 self b0) b1) ts).

(** [Simulation.detect_collisions]: no attribute is assigned, so the
    embedding returns the classification only. *)
Definition detect_collisions (self : t) : option collision :=
  let b0 := block_0 self in
  let b1 := block_1 self in
  if Fraction.leb (Block2D.x b0) (Block2D.size b0 / two)
     && Fraction.ltb (Block2D.v b0) 0
  then Some wall_0
  else if Fraction.leb (Block2D.x b1) (Block2D.size b1 / two)
          && Fraction.ltb (Block2D.v b1) 0
  then Some wall_1
  else
    let min_distance := (Block2D.size b0 + Block2D.size b1) / two in
    let actual_distance := Block2D.x b1 - Block2D.x b0 in
    if Fraction.leb actual_distance min_distance
       && Fraction.ltb (Block2D.v b1) (Block2D.v b0)
    then Some blocks
    else None.

(** The velocities after an elastic collision, before any capping: the two
    divisions of the ["blocks"] branch of [handle_collision]. *)
Definition elastic_velocities (m1 m2 v1 v2 : Qc) : result (Qc * Qc) :=
  new_v1 <- Fraction.truediv ((m1 - m2) * v1 + two * m2 * v2) (m1 + m2) ;;
  new_v2 <- Fraction.truediv ((m2 - m1) * v2 + two * m1 * v1) (m1 + m2) ;;
  Ok (new_v1, new_v2).

(** The branches of [handle_collision], up to the final refresh of the
    cached energy and momentum. *)
Definition resolve (collision_type : collision) (self : t) : result t :=
  match collision_type with
  | wall_0 =>
      let b0 := block_0 self in
      let b0 := Block2D.set_v b0 (- Block2D.v b0) in
      let b0 := Block2D.set_x b0 (Block2D.size b0 / two) in
      Ok (set_counters (set_block_0 self b0)
            (wall_collisions self + 1)%Z
            (block_collisions self)
            (total_collisions self + 1)%Z)
  | wall_1 =>
      let b1 := block_1 self in
      let b1 := Block2D.set_v b1 (- Block2D.v b1) in
      let b1 := Block2D.set_x b1 (Block2D.size b1 / two) in
      Ok (set_counters (set_block_1 self b1)
            (wall_collisions self + 1)%Z
            (block_collisions self)
            (total_collisions self + 1)%Z)
  | blocks =>
      let m1 := Block2D.mass (block_0 self) in
      let m2 := Block2D.mass (block_1 self) in
      let v1 := Block2D.v (block_0 self) in
      let v2 := Block2D.v (block_1 self) in
      '(new_v1, new_v2) <- elastic_velocities m1 m2 v1 v2 ;;
      v1' <- Fraction.limit_denominator new_v1 (simplify_denominator self) ;;
      v2' <- Fraction.limit_denominator new_v2 (simplify_denominator self) ;;
      let b0 := Block2D.set_v (block_0 self) v1' in
      let b1 := Block2D.set_v (block_1 self) v2' in
      let min_distance := (Block2D.size b0 + Block2D.size b1) / two in
      let actual_distance := Block2D.x b1 - Block2D.x b0 in
      '(b0, b1) <-
        (if Fraction.ltb actual_distance min_distance then
           let overlap := min_distance - actual_distance in
           let total_mass := m1 + m2 in
           adj1 <- Fraction.truediv (overlap * m2) total_mass ;;
           pos_adj1 <- Fraction.limit_denominator adj1 (simplify_denominator self) ;;
           adj2 <- Fraction.truediv (overlap * m1) total_mass ;;
           pos_adj2 <- Fraction.limit_denominator adj2 (simplify_denominator self) ;;
           Ok (Block2D.set_x b0 (Block2D.x b0 - pos_adj1),
               Block2D.set_x b1 (Block2D.x b1 + pos_adj2))
         else Ok (b0, b1)) ;;
      Ok (set_counters (set_block_1 (set_block_0 self b0) b1)
            (wall_collisions self)
            (block_collisions self + 1)%Z
            (total_collisions self + 1)%Z)
  end.

(** [Simulation.handle_collision(self, collision_type)]. *)
Definition handle_collision (collision_type : collision) (self : t) : result t :=
  self <- resolve collision_type self ;;
  e <- _total_energy (block_0 self) (block_1 self) ;;
  m <- _total_momentum (block_0 self) (block_1 self) ;;
  Ok (set_totals self e m).

(** The straight-line motion of [update]:
    [self.block_i.x += self.block_i.v * self.time_step]. *)
Definition move (self : t) : t :=
  let b0 := block_0 self in
  let self := set_block_0 self
                (Block2D.set_x b0 (Block2D.x b0 + Block2D.v b0 * time_step self)) in
  let b1 := block_1 self in
  set_block_1 self
    (Block2D.set_x b1 (Block2D.x b1 + Block2D.v b1 * time_step self)).

(** [Simulation.update(self)]. *)
Definition update (self : t) : result t :=
  if paused self then Ok self
  else
    match detect_collisions self with
    | Some collision_type => handle_collision collision_type self
    | None =>
        let self := move self in
        self <- match detect_collisions self with
                | Some collision_type => handle_collision collision_type self
                | None => Ok self
                end ;;
        let self := set_simplify_counter self (simplify_counter self + 1)%Z in
        if (simplify_interval self <=? simplify_counter self)%Z then
          self <- simplify_fractions self ;;
          Ok (set_simplify_counter self 0%Z)
        else Ok self
    end.

(** [Simulation.reset(self, mass_0=1, mass_1=10000, v_1=-5)]. *)
Definition reset (self : t) (mass_0 mass_1 v_1 : Qc) : result t :=
  b0 <- Block2D.init mass_0 (Fraction.of_int 0)
                     (Fraction.of_int 150) (Fraction.of_int 30) ;;
  b1 <- Block2D.init mass_1 v_1 (Fraction.of_int 600) (Fraction.of_int 60) ;;
  let self := set_block_1 (set_block_0 self b0) b1 in
  let self := set_counters self 0%Z 0%Z 0%Z in
  let self := set_simplify_counter self 0%Z in
  e <- _total_energy (block_0 self) (block_1 self) ;;
  m <- _total_momentum (block_0 self) (block_1 self) ;;
  let self := set_totals self e m in
  Ok (set_initials self (total_energy self) (total_momentum self)).

(** [Simulation.adjust_speed(self, increase=True)]. *)
Definition adjust_speed (self : t) (increase : bool) : t :=
  if increase
  then set_simulation_speed self (Z.min 100000 (simulation_speed self * 2))
  else set_simulation_speed self (Z.max 1 (simulation_speed self / 2)).

(** [Simulation.adjust_precision(self, increase=True)]. *)
Definition adjust_precision (self : t) (increase : bool) : result t :=
  let self :=
    if increase
    then set_simplify_denominator self
           (Z.min (10 ^ 12) (simplify_denominator self * 10))
    else set_simplify_denominator self
           (Z.max (10 ^ 3) (simplify_denominator self / 10)) in
  simplify_fractions self.

(** [sim.paused = not sim.paused], the pause key of the event loop. *)
Definition toggle_pause (self : t) : t :=
  set_paused self (negb (paused self)).

End Simulation.


(** ** Runs of the simulation *)

(** The calls the event loop makes on the simulation. *)
Inductive call : Type :=
| Update
| Reset (mass_0 mass_1 v_1 : Qc)
| AdjustSpeed (increase : bool)
| AdjustPrecision (increase : bool)
| TogglePause.

Definition is_reset (c : call) : bool :=
  match c with
  | Reset _ _ _ => true
  | _ => false
  end.

Definition perform (c : call) (s : Simulation.t) : result Simulation.t :=
  match c with
  | Update => Simulation.update s
  | Reset mass_0 mass_1 v_1 => Simulation.reset s mass_0 mass_1 v_1
  | AdjustSpeed increase => Ok (Simulation.adjust_speed s increase)
  | AdjustPrecision increase => Simulation.adjust_precision s increase
  | TogglePause => Ok (Simulation.toggle_pause s)
  end.

(** A sequence of calls, left to right; an uncaught exception ends the
    program. *)
Fixpoint run (cs : list call) (s : Simulation.t) : result Simulation.t :=
  match cs with
  | [] => Ok s
  | c :: cs' => s' <- perform c s ;; run cs' s'
  end.

(** [n] calls of [update] in a row, as the frame loop
    [for _ in range(sim.simulation_speed): sim.update()] makes them. *)
Fixpoint updates (n : nat) (s : Simulation.t) : result Simulation.t :=
  match n with
  | O => Ok s
  | S n' => s' <- Simulation.update s ;; updates n' s'
  end.

(** The states on which no call can raise: the masses do not cancel (the
    divisor of the elastic collision) and the denominator cap is a legal
    argument of [limit_denominator]. *)
Definition well_formed (s : Simulation.t) : Prop :=
  (Block2D.mass (Simulation.block_0 s) + Block2D.mass (Simulation.block_1 s))%Qc
    <> Fraction.of_int 0
  /\ 1 <= Simulation.simplify_denominator s.

(** The counters of a state agree. *)
Definition counters_consistent (s : Simulation.t) : Prop :=
  Simulation.total_collisions s
  = Simulation.wall_collisions s + Simulation.block_collisions s.

(** No counter of [s'] is below its value in [s]. *)
Definition counters_le (s s' : Simulation.t) : Prop :=
  Simulation.wall_collisions s <= Simulation.wall_collisions s'
  /\ Simulation.block_collisions s <= Simulation.block_collisions s'
  /\ Simulation.total_collisions s <= Simulation.total_collisions s'.

(** ** Scenarios *)

(** The state [Simulation(1200)] builds, field by field. *)
Definition initial_block_0 : Block2D.t :=
  Block2D.mk (Fraction.of_int 1) (Fraction.of_int 0)
             (Fraction.of_int 150) (Fraction.of_int 30).

Definition initial_block_1 : Block2D.t :=
  Block2D.mk (Fraction.of_int 10000) (Fraction.of_int (-5))
             (Fraction.of_int 600) (Fraction.of_int 60).

Definition initial_state : Simulation.t :=
  Simulation.mk 1200 initial_block_0 initial_block_1 0 0 0
    (Fraction.make 1 100) (2 ^ 8) 100 0 (10 ^ 9)
    (Simulation.energy_of initial_block_0 initial_block_1)
    (Simulation.momentum_of initial_block_0 initial_block_1)
    (Simulation.energy_of initial_block_0 initial_block_1)
    (Simulation.momentum_of initial_block_0 initial_block_1)
    false.

(** Precision lowered six times, from [10**9] to [10**3], then a reset with
    a heavy block fast enough to reach the light one in one tick, then that
    tick. *)
Definition low_precision_collision : result Simulation.t :=
  run [AdjustPrecision false; AdjustPrecision false; AdjustPrecision false;
       AdjustPrecision false; AdjustPrecision false; AdjustPrecision false;
       Reset (Fraction.of_int 1) (Fraction.of_int 10000)
             (Fraction.of_int (-40500));
       Update] initial_state.

(** A velocity whose denominator exceeds [10**9]. *)
Definition fine_velocity : Qc := Fraction.make 1 1000000001.

(** ** The cached totals *)

(** The cached totals of [s] are the exact energy and momentum of its
    blocks, capped with [cap]. *)
Definition totals_capped (cap : Z) (s : Simulation.t) : Prop :=
  Fraction.limit_denominator
    (Simulation.energy_of (Simulation.block_0 s) (Simulation.block_1 s)) cap
  = Ok (Simulation.total_energy s)
  /\ Fraction.limit_denominator
       (Simulation.momentum_of (Simulation.block_0 s) (Simulation.block_1 s)) cap
     = Ok (Simulation.total_momentum s).

(** ** The detector's conditions, as the specification words them *)

Definition wall_0_condition (s : Simulation.t) : Prop :=
  (Block2D.x (Simulation.block_0 s)
   <= Block2D.size (Simulation.block_0 s) / Simulation.two)%Qc
  /\ (Block2D.v (Simulation.block_0 s) < 0)%Qc.

Definition wall_1_condition (s : Simulation.t) : Prop :=
  (Block2D.x (Simulation.block_1 s)
   <= Block2D.size (Simulation.block_1 s) / Simulation.two)%Qc
  /\ (Block2D.v (Simulation.block_1 s) < 0)%Qc.

Definition blocks_condition (s : Simulation.t) : Prop :=
  (Block2D.x (Simulation.block_1 s) - Block2D.x (Simulation.block_0 s)
   <= (Block2D.size (Simulation.block_0 s) + Block2D.size (Simulation.block_1 s))
      / Simulation.two)%Qc
  /\ (Block2D.v (Simulation.block_1 s) < Block2D.v (Simulation.block_0 s))%Qc.

(** ** Rounding, the frame loop and the caller's side *)

(** [1 / (2 * m)], the largest distance [limit_denominator(m)] moves a
    fraction. *)
Definition tolerance (m : Z) : Qc := Fraction.make 1 (Z.to_pos (2 * m)).

(** The physics of one displayed frame, in the main loop:
    [for _ in range(sim.simulation_speed): sim.update()]; an empty range
    for a speed below 1. *)
Definition frame (s : Simulation.t) : result Simulation.t :=
  updates (Z.to_nat (Simulation.simulation_speed s)) s.

(** The two tunables within the bounds of [adjust_precision] and
    [adjust_speed]. *)
Definition tuning_in_range (s : Simulation.t) : Prop :=
  10 ^ 3 <= Simulation.simplify_denominator s <= 10 ^ 12
  /\ 1 <= Simulation.simulation_speed s <= 100000.


Definition masses_positive (s : Simulation.t) : Prop :=
  (0 < Block2D.mass (Simulation.block_0 s))%Qc
  /\ (0 < Block2D.mass (Simulation.block_1 s))%Qc.

(** A call that is not a reset, or a reset whose two masses are rationals
    of at least 1. *)
Definition masses_at_least_1 (c : call) : Prop :=
  match c with
  | Reset mass_0 mass_1 _ =>
      (Fraction.of_int 1 <= mass_0)%Qc /\ (Fraction.of_int 1 <= mass_1)%Qc
  | _ => True
  end.

(** The fields of the old state a reset reads. *)
Definition same_tuning (s1 s2 : Simulation.t) : Prop :=
  Simulation.width s1 = Simulation.width s2
  /\ Simulation.time_step s1 = Simulation.time_step s2
  /\ Simulation.simulation_speed s1 = Simulation.simulation_speed s2
  /\ Simulation.simplify_interval s1 = Simulation.simplify_interval s2
  /\ Simulation.simplify_denominator s1 = Simulation.simplify_denominator s2
  /\ Simulation.paused s1 = Simulation.paused s2.

(** A velocity the cap [10**3] rounds: the light block's after the first
    collision of the initial blocks. *)
Definition rounded_block : Block2D.t :=
  Block2D.mk (Fraction.of_int 1) (Fraction.make (-100000) 10001)
             (Fraction.of_int 150) (Fraction.of_int 30).

(** The initial state with the light block at the wall, moving left. *)
Definition at_wall_0 : Simulation.t :=
  Simulation.set_block_0 initial_state
    (Block2D.mk (Fraction.of_int 1) (Fraction.of_int (-1))
                (Fraction.of_int 15) (Fraction.of_int 30)).

(** The light block at the wall moving left, and the heavy block touching
    it and faster to the left: the conditions of wall 0 and of the blocks
    hold at once. *)
Definition wall_0_and_blocks : Simulation.t :=
  Simulation.set_block_1 at_wall_0
    (Block2D.mk (Fraction.of_int 10000) (Fraction.of_int (-5))
                (Fraction.of_int 60) (Fraction.of_int 60)).

(** The heavy block at the wall moving left, into the light block, which
    moves right: the conditions of wall 1 and of the blocks hold at once,
    that of wall 0 does not. *)
Definition wall_1_and_blocks : Simulation.t :=
  Simulation.set_block_1
    (Simulation.set_block_0 initial_state
       (Block2D.mk (Fraction.of_int 1) (Fraction.of_int 1)
                   (Fraction.of_int 15) (Fraction.of_int 30)))
    (Block2D.mk (Fraction.of_int 10000) (Fraction.of_int (-5))
                (Fraction.of_int 30) (Fraction.of_int 60)).

(** The initial state with the heavy block one unit into the light one. *)
Definition overlapping : Simulation.t :=
  Simulation.set_block_1 initial_state
    (Block2D.mk (Fraction.of_int 10000) (Fraction.of_int (-5))
                (Fraction.of_int 194) (Fraction.of_int 60)).

(** What no call but [reset] assigns: the masses and sizes of the blocks,
    the width, the simplification interval and the initial totals. *)
Definition constants_kept (s s' : Simulation.t) : Prop :=
  Block2D.mass (Simulation.block_0 s') = Block2D.mass (Simulation.block_0 s)
  /\ Block2D.mass (Simulation.block_1 s') = Block2D.mass (Simulation.block_1 s)
  /\ Block2D.size (Simulation.block_0 s') = Block2D.size (Simulation.block_0 s)
  /\ Block2D.size (Simulation.block_1 s') = Block2D.size (Simulation.block_1 s)
  /\ Simulation.width s' = Simulation.width s
  /\ Simulation.simplify_interval s' = Simulation.simplify_interval s
  /\ Simulation.initial_energy s' = Simulation.initial_energy s
  /\ Simulation.initial_momentum s' = Simulation.initial_momentum s.

(** What [update] never assigns among the tunables. *)
Definition tuning_kept (s s' : Simulation.t) : Prop :=
  Simulation.simulation_speed s' = Simulation.simulation_speed s
  /\ Simulation.simplify_denominator s' = Simulation.simplify_denominator s
  /\ Simulation.paused s' = Simulation.paused s.

(** The sizes, the time step and the interval the constructor sets. *)
Definition built_constants (s : Simulation.t) : Prop :=
  Block2D.size (Simulation.block_0 s) = Fraction.of_int 30
  /\ Block2D.size (Simulation.block_1 s) = Fraction.of_int 60
  /\ Simulation.time_step s = Fraction.make 1 100
  /\ Simulation.simplify_interval s = 100.

(** * Facts *)

(** ** The error monad *)

Lemma bind_Ok {A B : Type} (m : result A) (f : A -> result B) (b : B) :
  bind m f = Ok b -> exists a, m = Ok a /\ f a = Ok b.
Proof.
  destruct m as [a|e]; cbn; [|discriminate].
  intros H. now exists a.
Qed.

(** Splits every successful [bind] among the hypotheses into its two
    successful halves. *)
Ltac inv_bind :=
  repeat match goal with
         | H : bind _ _ = Ok _ |- _ =>
             let a := fresh "a" in
             let Ha := fresh "Ha" in
             apply bind_Ok in H; destruct H as (a & Ha & H)
         | H : (let (_, _) := ?p in _) = Ok _ |- _ => destruct p
         | H : Ok _ = Ok _ |- _ => injection H as H
         | H : Raise _ = Ok _ |- _ => discriminate H
         end.

(** Decides a closed comparison of integers or fractions by evaluation. *)
Ltac by_computation :=
  vm_compute; repeat split;
  first [reflexivity | let H := fresh in intro H; discriminate H].

(** Refutes a closed conjunction of two comparisons by evaluation. *)
Ltac refute :=
  let H := fresh in
  let H1 := fresh in
  let H2 := fresh in
  intros H; vm_compute in H; destruct H as [H1 H2];
  first [discriminate H2 | discriminate H1
        | exact (H1 eq_refl) | exact (H2 eq_refl)].

(** ** Fractions *)

#[global] Arguments Fraction.limit_denominator : simpl never.
#[global] Arguments Fraction.truediv : simpl never.

Lemma limit_loop_S fuel maxd p0 q0 p1 q1 n d :
  Fraction.limit_loop (S fuel) maxd p0 q0 p1 q1 n d =
  if d =? 0 then Raise ZeroDivisionError
  else if q0 + n / d * q1 >? maxd then Ok (p0, q0, p1, q1, d)
       else Fraction.limit_loop fuel maxd p1 q1 (p0 + n / d * p1)
              (q0 + n / d * q1) d (n - n / d * d).
Proof. reflexivity. Qed.

(** The loop on a pair [(n, d)] of a continued-fraction expansion of a
    fraction of denominator [D] in lowest terms: it never divides by zero,
    it leaves by its [break] within the fuel, and there [q1] is positive,
    both denominators are within the bound and the two convergents are
    neighbours ([p0*q1 - p1*q0] is 1 or -1). *)
Lemma limit_loop_total (maxd D : Z) (fuel : nat) :
  forall p0 q0 p1 q1 n d,
    1 <= maxd < D ->
    0 <= d < n ->
    0 <= q0 <= maxd -> 0 <= q1 <= maxd ->
    q1 * n + q0 * d = D ->
    Z.gcd n d = 1 ->
    Z.abs (p0 * q1 - p1 * q0) = 1 ->
    n * d < 2 ^ Z.of_nat fuel ->
    exists p0' q0' p1' q1' d',
      Fraction.limit_loop (S fuel) maxd p0 q0 p1 q1 n d
      = Ok (p0', q0', p1', q1', d')
      /\ 0 <= q0' <= maxd /\ 0 < q1' <= maxd
      /\ Z.abs (p0' * q1' - p1' * q0') = 1.
Proof.
  induction fuel as [|fuel IH];
    intros p0 q0 p1 q1 n d Hm Hd Hq0 Hq1 HD Hg Hdet Hf.
  - exfalso. change (2 ^ Z.of_nat 0) with 1 in Hf.
    assert (d = 0) by nia. subst d.
    rewrite Z.gcd_0_r in Hg. nia.
  - rewrite limit_loop_S.
    destruct (Z.eqb_spec d 0) as [->|Hd0].
    + exfalso. rewrite Z.gcd_0_r in Hg. nia.
    + set (a := n / d).
      assert (Ha : 1 <= a) by (subst a; apply Z.div_le_lower_bound; lia).
      assert (Hr : 0 <= n - a * d < d).
      { subst a. pose proof (Z.mod_pos_bound n d ltac:(lia)) as Hb.
        rewrite Z.mod_eq in Hb by lia. lia. }
      destruct (Z.gtb_spec (q0 + a * q1) maxd) as [Hbrk|Hcont].
      * exists p0, q0, p1, q1, d. repeat split; lia.
      * apply IH.
        -- lia.
        -- lia.
        -- lia.
        -- split; [nia | lia].
        -- ring_simplify. lia.
        -- replace (n - a * d) with (n + (- a) * d) by ring.
           rewrite Z.gcd_add_mult_diag_r, Z.gcd_comm. exact Hg.
        -- replace (p1 * (q0 + a * q1) - (p0 + a * p1) * q1)
             with (- (p0 * q1 - p1 * q0)) by ring.
           now rewrite Z.abs_opp.
        -- rewrite Nat2Z.inj_succ, Z.pow_succ_r in Hf by lia.
           assert (2 * (d * (n - a * d)) < n * d) by nia. lia.
Qed.

Lemma canonical_gcd (x : Qc) :
  Z.gcd (Fraction.numerator x) (Fraction.denominator x) = 1.
Proof.
  unfold Fraction.numerator, Fraction.denominator.
  rewrite <- (canon x). apply gcd_Qred.
Qed.

Lemma neighbours_coprime (p q p' q' : Z) :
  Z.abs (p * q' - p' * q) = 1 -> Z.gcd p' q' = 1.
Proof.
  intros H. apply Z.coprime_Bezout.
  destruct (Z.abs_eq_or_opp (p * q' - p' * q)) as [E|E]; rewrite E in H.
  - exists (- q), p. lia.
  - exists q, (- p). lia.
Qed.

Lemma Q2Qc_lowest_terms (p q : Z) :
  0 < q -> Z.gcd p q = 1 -> this (Q2Qc (p # Z.to_pos q)) = (p # Z.to_pos q).
Proof.
  intros Hq Hg. cbn [this Q2Qc]. apply Qred_identity.
  cbn [Qnum Qden]. now rewrite Z2Pos.id.
Qed.

(** Above the bound, [limit_denominator] returns a fraction [p/q] that the
    source builds with [_normalize=False]: it is in lowest terms already,
    with [0 < q <= max_denominator]. *)
Lemma limit_denominator_large (x : Qc) (m : Z) :
  1 <= m -> m < Fraction.denominator x ->
  exists p q,
    Fraction.limit_denominator x m = Ok (Q2Qc (p # Z.to_pos q))
    /\ 0 < q <= m /\ Z.gcd p q = 1.
Proof.
  intros Hm Hden. unfold Fraction.limit_denominator.
  destruct (Z.ltb_spec m 1) as [|_]; [lia|].
  destruct (Z.leb_spec (Fraction.denominator x) m) as [|_]; [lia|].
  pose proof (canonical_gcd x) as Hg.
  unfold Fraction.loop_fuel.
  set (D := Fraction.denominator x) in *. set (N := Fraction.numerator x) in *.
  assert (HD : 0 < D) by (subst D; unfold Fraction.denominator; lia).
  assert (Hsz : D < 2 ^ Z.of_nat (Pos.size_nat (Qden (this x)))).
  { apply Zpower2_Psize. lia. }
  set (sz := Pos.size_nat (Qden (this x))) in *.
  rewrite limit_loop_S.
  destruct (Z.eqb_spec D 0) as [|_]; [lia|].
  replace (1 + N / D * 0) with 1 by ring.
  destruct (Z.gtb_spec 1 m) as [|_]; [lia|].
  pose proof (Z.mod_pos_bound N D HD) as Hr.
  rewrite Z.mod_eq in Hr by lia.
  destruct (limit_loop_total m D (2 * sz) 1 0 (0 + N / D * 1) 1 D (N - N / D * D))
    as (p0 & q0 & p1 & q1 & d & -> & Hq0 & Hq1 & Hdet); try lia.
  - replace (N - N / D * D) with (N + (- (N / D)) * D) by ring.
    rewrite Z.gcd_add_mult_diag_r, Z.gcd_comm. exact Hg.
  - replace (Z.of_nat (2 * sz)) with (Z.of_nat sz + Z.of_nat sz) by lia.
    rewrite Z.pow_add_r by lia. nia.
  - cbn [bind].
    destruct (Z.eqb_spec q1 0) as [|_]; [lia|].
    set (k := (m - q0) / q1).
    assert (Hk : 0 <= m - q0 - k * q1 < q1).
    { subst k. pose proof (Z.mod_pos_bound (m - q0) q1 ltac:(lia)) as Hb.
      rewrite Z.mod_eq in Hb by lia. lia. }
    destruct (2 * d * (q0 + k * q1) <=? D).
    + exists p1, q1. split; [reflexivity|]. split; [lia|].
      exact (neighbours_coprime p0 q0 p1 q1 Hdet).
    + exists (p0 + k * p1), (q0 + k * q1). split; [reflexivity|].
      split; [lia|].
      apply (neighbours_coprime p1 q1). rewrite <- Hdet, <- Z.abs_opp.
      f_equal. ring.
Qed.

(** [limit_denominator] raises nothing on a legal bound. *)
Lemma limit_denominator_total (x : Qc) (m : Z) :
  1 <= m -> exists y, Fraction.limit_denominator x m = Ok y.
Proof.
  intros Hm.
  destruct (Z_le_gt_dec (Fraction.denominator x) m) as [Hden|Hden].
  - exists x. unfold Fraction.limit_denominator.
    destruct (Z.ltb_spec m 1) as [|_]; [lia|].
    destruct (Z.leb_spec (Fraction.denominator x) m) as [_|]; [reflexivity|lia].
  - destruct (limit_denominator_large x m Hm) as (p & q & H & _); [lia|].
    eauto.
Qed.

(** The denominator of the result is within the bound. *)
Lemma limit_denominator_capped (x y : Qc) (m : Z) :
  Fraction.limit_denominator x m = Ok y -> Fraction.denominator y <= m.
Proof.
  intros H.
  destruct (Z.ltb_spec m 1) as [Hm|Hm].
  { unfold Fraction.limit_denominator in H.
    destruct (Z.ltb_spec m 1); [discriminate H|lia]. }
  destruct (Z_le_gt_dec (Fraction.denominator x) m) as [Hden|Hden].
  - unfold Fraction.limit_denominator in H.
    destruct (Z.ltb_spec m 1) as [|_]; [lia|].
    destruct (Z.leb_spec (Fraction.denominator x) m) as [_|]; [|lia].
    now injection H as <-.
  - destruct (limit_denominator_large x m Hm) as (p & q & H' & Hq & Hg); [lia|].
    rewrite H' in H. injection H as <-.
    unfold Fraction.denominator. rewrite Q2Qc_lowest_terms by (lia || exact Hg).
    cbn [Qden]. rewrite Z2Pos.id by lia. lia.
Qed.

(** The examples of the docstring of [limit_denominator]. *)
Example limit_denominator_pi_10 :
  Fraction.limit_denominator
    (Fraction.make 3141592653589793 1000000000000000) 10
  = Ok (Fraction.make 22 7).
Proof. vm_compute. reflexivity. Qed.

Example limit_denominator_pi_100 :
  Fraction.limit_denominator
    (Fraction.make 3141592653589793 1000000000000000) 100
  = Ok (Fraction.make 311 99).
Proof. vm_compute. reflexivity. Qed.

Example limit_denominator_within :
  Fraction.limit_denominator (Fraction.make 4321 8765) 10000
  = Ok (Fraction.make 4321 8765).
Proof. vm_compute. reflexivity. Qed.

Example limit_denominator_illegal :
  Fraction.limit_denominator (Fraction.make 1 3) 0 = Raise ValueError.
Proof. reflexivity. Qed.

(** A fraction whose denominator is within the bound is returned as it
    is. *)
Lemma limit_denominator_small (x : Qc) (m : Z) :
  1 <= m -> Fraction.denominator x <= m ->
  Fraction.limit_denominator x m = Ok x.
Proof.
  intros Hm Hx. unfold Fraction.limit_denominator.
  destruct (Z.ltb_spec m 1) as [|_]; [lia|].
  destruct (Z.leb_spec (Fraction.denominator x) m) as [_|]; [reflexivity|lia].
Qed.

Lemma denominator_of_int (n : Z) : Fraction.denominator (Fraction.of_int n) = 1.
Proof.
  unfold Fraction.denominator, Fraction.of_int, Q2Qc, inject_Z, Qred; cbn.
  pose proof (Z.ggcd_gcd n 1) as Hg.
  pose proof (Z.ggcd_correct_divisors n 1) as Hc.
  destruct (Z.ggcd n 1) as (g & a & b); cbn in *.
  rewrite Z.gcd_1_r in Hg. subst g. destruct Hc as [_ Hb]. 
  replace b with 1 by lia. reflexivity.
Qed.

Lemma limit_denominator_of_int (n m : Z) :
  1 <= m -> Fraction.limit_denominator (Fraction.of_int n) m = Ok (Fraction.of_int n).
Proof.
  intros Hm. apply limit_denominator_small; [exact Hm|].
  rewrite denominator_of_int. exact Hm.
Qed.

Lemma leb_le (a b : Qc) : Fraction.leb a b = true <-> (a <= b)%Qc.
Proof. unfold Fraction.leb, Qcle. apply Qle_bool_iff. Qed.

Lemma ltb_lt (a b : Qc) : Fraction.ltb a b = true <-> (a < b)%Qc.
Proof.
  unfold Fraction.ltb, Qclt. rewrite negb_true_iff.
  rewrite <- not_true_iff_false, Qle_bool_iff. split.
  - apply Qnot_le_lt.
  - apply Qlt_not_le.
Qed.

Lemma truediv_Ok (a b : Qc) :
  b <> Fraction.of_int 0 -> Fraction.truediv a b = Ok (a / b)%Qc.
Proof.
  intros Hb. unfold Fraction.truediv.
  destruct (Qc_eq_dec b (Fraction.of_int 0)); [contradiction|reflexivity].
Qed.

Lemma of_int_0 : Fraction.of_int 0 = 0%Qc.
Proof. reflexivity. Qed.

Lemma two_eq : Simulation.two = (1 + 1)%Qc.
Proof. apply Qc_is_canon. reflexivity. Qed.

Lemma Qcplus_pos (a b : Qc) : (0 < a)%Qc -> (0 < b)%Qc -> (0 < a + b)%Qc.
Proof.
  unfold Qclt. intros Ha Hb.
  change (0 < Qred (this a + this b))%Q. rewrite Qred_correct.
  apply (Qplus_lt_le_compat 0 a 0 b Ha). now apply Qlt_le_weak.
Qed.

(** ** Blocks and cached quantities *)

Lemma cap_legal : 1 <= 10 ^ 9.
Proof. now vm_compute. Qed.

Lemma Block2D_init_Ok (mass v x size : Qc) :
  exists b,
    Block2D.init mass v x size = Ok b
    /\ Fraction.limit_denominator mass (10 ^ 9) = Ok (Block2D.mass b)
    /\ Fraction.limit_denominator v (10 ^ 9) = Ok (Block2D.v b)
    /\ Fraction.limit_denominator x (10 ^ 9) = Ok (Block2D.x b)
    /\ Fraction.limit_denominator size (10 ^ 9) = Ok (Block2D.size b).
Proof.
  unfold Block2D.init.
  destruct (limit_denominator_total mass _ cap_legal) as [mass' ->].
  destruct (limit_denominator_total v _ cap_legal) as [v' ->].
  destruct (limit_denominator_total x _ cap_legal) as [x' ->].
  destruct (limit_denominator_total size _ cap_legal) as [size' ->].
  cbn. eexists. repeat split.
Qed.

Lemma Block2D_simplify_Ok (b : Block2D.t) (m : Z) :
  1 <= m ->
  exists b',
    Block2D.simplify b m = Ok b'
    /\ Block2D.mass b' = Block2D.mass b /\ Block2D.size b' = Block2D.size b.
Proof.
  intros Hm. unfold Block2D.simplify.
  destruct (limit_denominator_total (Block2D.v b) m Hm) as [v' ->].
  destruct (limit_denominator_total (Block2D.x b) m Hm) as [x' ->].
  cbn. eexists. repeat split.
Qed.

Lemma Block2D_simplify_frame (b b' : Block2D.t) (m : Z) :
  Block2D.simplify b m = Ok b' ->
  Block2D.mass b' = Block2D.mass b /\ Block2D.size b' = Block2D.size b.
Proof.
  unfold Block2D.simplify. intros H. inv_bind. subst b'. now split.
Qed.

Lemma total_energy_Ok (b0 b1 : Block2D.t) :
  exists e, Simulation._total_energy b0 b1 = Ok e.
Proof. apply limit_denominator_total, cap_legal. Qed.

Lemma total_momentum_Ok (b0 b1 : Block2D.t) :
  exists m, Simulation._total_momentum b0 b1 = Ok m.
Proof. apply limit_denominator_total, cap_legal. Qed.

(** ** Collision resolution *)

(** What [handle_collision] adds to the branch it runs: the two cached
    totals, recomputed from the blocks the branch leaves. *)
Lemma handle_collision_Ok (c : collision) (s s' : Simulation.t) :
  Simulation.handle_collision c s = Ok s' <->
  exists r,
    Simulation.resolve c s = Ok r
    /\ exists e m,
        Simulation._total_energy (Simulation.block_0 r) (Simulation.block_1 r) = Ok e
        /\ Simulation._total_momentum (Simulation.block_0 r) (Simulation.block_1 r) = Ok m
        /\ s' = Simulation.set_totals r e m.
Proof.
  unfold Simulation.handle_collision. split.
  - intros H. inv_bind. subst s'.
    eexists; split; [eassumption|]. do 2 eexists. repeat split; eassumption.
  - intros (r & Hr & e & m & He & Hm & ->).
    rewrite Hr. cbn [bind]. rewrite He. cbn [bind]. rewrite Hm. reflexivity.
Qed.

Lemma resolve_total_collisions (c : collision) (s r : Simulation.t) :
  Simulation.resolve c s = Ok r ->
  Simulation.total_collisions r = Simulation.total_collisions s + 1
  /\ Simulation.wall_collisions r + Simulation.block_collisions r
     = Simulation.wall_collisions s + Simulation.block_collisions s + 1
  /\ Simulation.wall_collisions s <= Simulation.wall_collisions r
  /\ Simulation.block_collisions s <= Simulation.block_collisions r.
Proof.
  destruct c; cbn; intros H.
  - injection H as <-. cbn. lia.
  - injection H as <-. cbn. lia.
  - inv_bind. subst r. cbn. lia.
Qed.

(** The fields no branch of [resolve] assigns. *)
Lemma resolve_frame (c : collision) (s r : Simulation.t) :
  Simulation.resolve c s = Ok r ->
  Simulation.paused r = Simulation.paused s
  /\ Simulation.simplify_denominator r = Simulation.simplify_denominator s
  /\ Simulation.simplify_counter r = Simulation.simplify_counter s
  /\ Simulation.simplify_interval r = Simulation.simplify_interval s
  /\ Simulation.time_step r = Simulation.time_step s
  /\ Block2D.mass (Simulation.block_0 r) = Block2D.mass (Simulation.block_0 s)
  /\ Block2D.mass (Simulation.block_1 r) = Block2D.mass (Simulation.block_1 s).
Proof.
  destruct c; cbn; intros H.
  - injection H as <-. cbn. repeat split.
  - injection H as <-. cbn. repeat split.
  - inv_bind.
    match goal with
    | H : (if ?b then _ else _) = Ok _ |- _ => destruct b
    end; inv_bind; subst; cbn; repeat split.
Qed.

Lemma elastic_velocities_Ok (m1 m2 v1 v2 : Qc) :
  (m1 + m2)%Qc <> Fraction.of_int 0 ->
  Simulation.elastic_velocities m1 m2 v1 v2
  = Ok (((m1 - m2) * v1 + Simulation.two * m2 * v2) / (m1 + m2),
        ((m2 - m1) * v2 + Simulation.two * m1 * v1) / (m1 + m2))%Qc.
Proof.
  intros Hm. unfold Simulation.elastic_velocities.
  now rewrite !truediv_Ok by exact Hm.
Qed.

Lemma resolve_Ok (c : collision) (s : Simulation.t) :
  well_formed s -> exists r, Simulation.resolve c s = Ok r.
Proof.
  intros [Hm Hd]. destruct c; cbn; eauto.
  rewrite elastic_velocities_Ok by exact Hm. cbn.
  destruct (limit_denominator_total
              (((Block2D.mass (Simulation.block_0 s) - Block2D.mass (Simulation.block_1 s))
                * Block2D.v (Simulation.block_0 s)
                + Simulation.two * Block2D.mass (Simulation.block_1 s)
                  * Block2D.v (Simulation.block_1 s))
               / (Block2D.mass (Simulation.block_0 s) + Block2D.mass (Simulation.block_1 s)))%Qc
              _ Hd) as [v1' ->].
  destruct (limit_denominator_total
              (((Block2D.mass (Simulation.block_1 s) - Block2D.mass (Simulation.block_0 s))
                * Block2D.v (Simulation.block_1 s)
                + Simulation.two * Block2D.mass (Simulation.block_0 s)
                  * Block2D.v (Simulation.block_0 s))
               / (Block2D.mass (Simulation.block_0 s) + Block2D.mass (Simulation.block_1 s)))%Qc
              _ Hd) as [v2' ->].
  cbn.
  destruct (Fraction.ltb _ _); cbn; [|eauto].
  rewrite truediv_Ok by exact Hm. cbn [bind].
  match goal with
  | |- context [Fraction.limit_denominator ?q ?d] =>
      destruct (limit_denominator_total q d Hd) as [adj1 ->]
  end.
  cbn [bind]. rewrite truediv_Ok by exact Hm. cbn [bind].
  match goal with
  | |- context [Fraction.limit_denominator ?q ?d] =>
      destruct (limit_denominator_total q d Hd) as [adj2 ->]
  end.
  cbn. eauto.
Qed.

(** The velocities a collision of the blocks stores are the elastic ones,
    capped with [simplify_denominator]. *)
Lemma resolve_blocks_velocities (s r : Simulation.t) :
  Simulation.resolve blocks s = Ok r ->
  exists new_v1 new_v2,
    Simulation.elastic_velocities
      (Block2D.mass (Simulation.block_0 s)) (Block2D.mass (Simulation.block_1 s))
      (Block2D.v (Simulation.block_0 s)) (Block2D.v (Simulation.block_1 s))
    = Ok (new_v1, new_v2)
    /\ Fraction.limit_denominator new_v1 (Simulation.simplify_denominator s)
       = Ok (Block2D.v (Simulation.block_0 r))
    /\ Fraction.limit_denominator new_v2 (Simulation.simplify_denominator s)
       = Ok (Block2D.v (Simulation.block_1 r)).
Proof.
  cbn. intros H. inv_bind.
  match goal with
  | H : (if ?b then _ else _) = Ok _ |- _ => destruct b
  end; inv_bind; subst; cbn; eauto.
Qed.

Lemma handle_collision_total (c : collision) (s : Simulation.t) :
  well_formed s ->
  exists s', Simulation.handle_collision c s = Ok s' /\ well_formed s'.
Proof.
  intros Hwf. destruct (resolve_Ok c s Hwf) as [r Hr].
  destruct (total_energy_Ok (Simulation.block_0 r) (Simulation.block_1 r)) as [e He].
  destruct (total_momentum_Ok (Simulation.block_0 r) (Simulation.block_1 r)) as [m Hm].
  exists (Simulation.set_totals r e m). split.
  - apply handle_collision_Ok. eauto 8.
  - destruct (resolve_frame c s r Hr) as (_ & Hd & _ & _ & _ & H0 & H1).
    destruct Hwf as [Hw1 Hw2]. unfold well_formed. cbn.
    rewrite H0, H1, Hd. now split.
Qed.

Lemma init_1200 : Simulation.init 1200 = Ok initial_state.
Proof. reflexivity. Qed.

Lemma initial_state_well_formed : well_formed initial_state.
Proof.
  split; [|now vm_compute]. intros H. apply (f_equal this) in H.
  vm_compute in H. discriminate H.
Qed.

Lemma at_wall_0_well_formed : well_formed at_wall_0.
Proof.
  split; [|by_computation]. intros H. apply (f_equal this) in H.
  vm_compute in H. discriminate H.
Qed.

Lemma overlapping_well_formed : well_formed overlapping.
Proof.
  split; [|by_computation]. intros H. apply (f_equal this) in H.
  vm_compute in H. discriminate H.
Qed.

Lemma overlapping_masses_positive : masses_positive overlapping.
Proof. split; reflexivity. Qed.

(** ** Elastic collisions *)

(** C1: when a collision of two blocks of positive masses is resolved, the
    velocities [newV0] and [newV1] that the resolution computes by the
    source's two formulas carry, before any capping, exactly the momentum
    the blocks had: [m0*newV0 + m1*newV1 = m0*v0 + m1*v1]; the velocities the
    resolution stores are these two, capped with [simplify_denominator], and
    the masses are kept.  On a legal cap the resolution returns. *)
Theorem elastic_collision_momentum (s : Simulation.t) :
  masses_positive s ->
  (forall s',
      Simulation.handle_collision blocks s = Ok s' ->
      exists newV0 newV1 : Qc,
        newV0 = (((Block2D.mass (Simulation.block_0 s)
                   - Block2D.mass (Simulation.block_1 s))
                  * Block2D.v (Simulation.block_0 s)
                  + Simulation.two * Block2D.mass (Simulation.block_1 s)
                    * Block2D.v (Simulation.block_1 s))
                 / (Block2D.mass (Simulation.block_0 s)
                    + Block2D.mass (Simulation.block_1 s)))%Qc
        /\ newV1 = (((Block2D.mass (Simulation.block_1 s)
                      - Block2D.mass (Simulation.block_0 s))
                     * Block2D.v (Simulation.block_1 s)
                     + Simulation.two * Block2D.mass (Simulation.block_0 s)
                       * Block2D.v (Simulation.block_0 s))
                    / (Block2D.mass (Simulation.block_0 s)
                       + Block2D.mass (Simulation.block_1 s)))%Qc
        /\ (Block2D.mass (Simulation.block_0 s) * newV0
            + Block2D.mass (Simulation.block_1 s) * newV1
            = Block2D.mass (Simulation.block_0 s) * Block2D.v (Simulation.block_0 s)
              + Block2D.mass (Simulation.block_1 s)
                * Block2D.v (Simulation.block_1 s))%Qc
        /\ Fraction.limit_denominator newV0 (Simulation.simplify_denominator s)
           = Ok (Block2D.v (Simulation.block_0 s'))
        /\ Fraction.limit_denominator newV1 (Simulation.simplify_denominator s)
           = Ok (Block2D.v (Simulation.block_1 s'))
        /\ Block2D.mass (Simulation.block_0 s') = Block2D.mass (Simulation.block_0 s)
        /\ Block2D.mass (Simulation.block_1 s') = Block2D.mass (Simulation.block_1 s))
  /\ (1 <= Simulation.simplify_denominator s ->
      exists s', Simulation.handle_collision blocks s = Ok s').
Proof.
  intros [Hp0 Hp1].
  assert (Hsum : (Block2D.mass (Simulation.block_0 s)
                  + Block2D.mass (Simulation.block_1 s))%Qc <> 0%Qc).
  { apply not_eq_sym, Qclt_not_eq, Qcplus_pos; assumption. }
  split.
  - intros s' H. apply handle_collision_Ok in H.
    destruct H as (r & Hr & e & m & _ & _ & ->).
    destruct (resolve_blocks_velocities s r Hr) as (a & b & He & Ha & Hb).
    destruct (resolve_frame blocks s r Hr) as (_ & _ & _ & _ & _ & Hm0 & Hm1).
    rewrite elastic_velocities_Ok in He by exact Hsum. injection He as Ea Eb.
    exists a, b. cbn [Simulation.block_0 Simulation.block_1 Simulation.set_totals].
    split; [symmetry; exact Ea|]. split; [symmetry; exact Eb|].
    split; [|repeat split; assumption].
    rewrite <- Ea, <- Eb, two_eq. field. exact Hsum.
  - intros Hd.
    destruct (handle_collision_total blocks s (conj Hsum Hd)) as (s' & H & _).
    now exists s'.
Qed.

Lemma elastic_collision_momentum_witness :
  Simulation.detect_collisions overlapping = Some blocks
  /\ exists (s' : Simulation.t) (newV0 newV1 : Qc),
      Simulation.handle_collision blocks overlapping = Ok s'
      /\ (Block2D.mass (Simulation.block_0 overlapping) * newV0
          + Block2D.mass (Simulation.block_1 overlapping) * newV1
          = Block2D.mass (Simulation.block_0 overlapping)
            * Block2D.v (Simulation.block_0 overlapping)
            + Block2D.mass (Simulation.block_1 overlapping)
              * Block2D.v (Simulation.block_1 overlapping))%Qc
      /\ Fraction.limit_denominator newV0
           (Simulation.simplify_denominator overlapping)
         = Ok (Block2D.v (Simulation.block_0 s'))
      /\ Fraction.limit_denominator newV1
           (Simulation.simplify_denominator overlapping)
         = Ok (Block2D.v (Simulation.block_1 s')).
Proof.
  split; [vm_compute; reflexivity|].
  destruct (elastic_collision_momentum overlapping overlapping_masses_positive)
    as [Hall Hex].
  assert (Hd : 1 <= Simulation.simplify_denominator overlapping)
    by by_computation.
  destruct (Hex Hd) as [s' H].
  destruct (Hall s' H) as (a & b & _ & _ & Hmom & Ha & Hb & _).
  exists s', a, b. split; [exact H|]. split; [exact Hmom|].
  split; [exact Ha|exact Hb].
Defined.

(** ** Detection *)

Lemma wall_0_test (s : Simulation.t) :
  Fraction.leb (Block2D.x (Simulation.block_0 s))
               (Block2D.size (Simulation.block_0 s) / Simulation.two)
  && Fraction.ltb (Block2D.v (Simulation.block_0 s)) 0 = true
  <-> wall_0_condition s.
Proof. unfold wall_0_condition. now rewrite andb_true_iff, leb_le, ltb_lt. Qed.

Lemma wall_1_test (s : Simulation.t) :
  Fraction.leb (Block2D.x (Simulation.block_1 s))
               (Block2D.size (Simulation.block_1 s) / Simulation.two)
  && Fraction.ltb (Block2D.v (Simulation.block_1 s)) 0 = true
  <-> wall_1_condition s.
Proof. unfold wall_1_condition. now rewrite andb_true_iff, leb_le, ltb_lt. Qed.

Lemma blocks_test (s : Simulation.t) :
  Fraction.leb
    (Block2D.x (Simulation.block_1 s) - Block2D.x (Simulation.block_0 s))
    ((Block2D.size (Simulation.block_0 s) + Block2D.size (Simulation.block_1 s))
     / Simulation.two)
  && Fraction.ltb (Block2D.v (Simulation.block_1 s))
                  (Block2D.v (Simulation.block_0 s)) = true
  <-> blocks_condition s.
Proof. unfold blocks_condition. now rewrite andb_true_iff, leb_le, ltb_lt. Qed.

(** C4: [detect_collisions] answers with the first condition that holds, in
    the order wall 0, wall 1, blocks, and with [None] when none holds; it is
    a function of the state to one optional classification, and assigns
    nothing. *)
Theorem detect_collisions_priority (s : Simulation.t) :
  (wall_0_condition s -> Simulation.detect_collisions s = Some wall_0)
  /\ (~ wall_0_condition s -> wall_1_condition s ->
      Simulation.detect_collisions s = Some wall_1)
  /\ (~ wall_0_condition s -> ~ wall_1_condition s -> blocks_condition s ->
      Simulation.detect_collisions s = Some blocks)
  /\ (~ wall_0_condition s -> ~ wall_1_condition s -> ~ blocks_condition s ->
      Simulation.detect_collisions s = None).
Proof.
  unfold Simulation.detect_collisions. cbv zeta.
  pose proof (wall_0_test s) as H0.
  pose proof (wall_1_test s) as H1.
  pose proof (blocks_test s) as HB.
  destruct (Fraction.leb (Block2D.x (Simulation.block_0 s)) _ && _);
    destruct (Fraction.leb (Block2D.x (Simulation.block_1 s)) _ && _);
    destruct (Fraction.leb _ _ && _);
    repeat split; intros; try reflexivity;
    repeat match goal with
           | H : _ <-> _ |- _ => destruct H
           end;
    try (exfalso; auto; fail);
    try match goal with
        | H : ?P -> false = true |- _ =>
            match goal with
            | HP : P |- _ => discriminate (H HP)
            end
        end.
Qed.

(** The priority order at work: a block at wall 0; wall 0 and the blocks
    at once; wall 1 and the blocks at once; the blocks alone; nothing. *)
Lemma detect_collisions_priority_witness :
  Simulation.detect_collisions at_wall_0 = Some wall_0
  /\ (blocks_condition wall_0_and_blocks
      /\ Simulation.detect_collisions wall_0_and_blocks = Some wall_0)
  /\ (blocks_condition wall_1_and_blocks
      /\ Simulation.detect_collisions wall_1_and_blocks = Some wall_1)
  /\ Simulation.detect_collisions overlapping = Some blocks
  /\ Simulation.detect_collisions initial_state = None.
Proof.
  split.
  { apply (proj1 (detect_collisions_priority at_wall_0)). by_computation. }
  split.
  { split; [by_computation|].
    apply (proj1 (detect_collisions_priority wall_0_and_blocks)).
    by_computation. }
  split.
  { split; [by_computation|].
    apply (proj1 (proj2 (detect_collisions_priority wall_1_and_blocks)));
      [refute|by_computation]. }
  split.
  { apply (proj1 (proj2 (proj2 (detect_collisions_priority overlapping))));
      [refute|refute|by_computation]. }
  apply (proj2 (proj2 (proj2 (detect_collisions_priority initial_state))));
    refute.
Defined.

(** ** Walls *)

(** C7: resolving a wall collision of block 0 negates its velocity exactly
    (no capping), puts its position at exactly [size / 2], and adds one to
    [wall_collisions] and to [total_collisions]; the same holds for block 1
    on a wall collision of block 1. *)
Theorem wall_reflection_exact (s : Simulation.t) :
  (exists s',
      Simulation.handle_collision wall_0 s = Ok s'
      /\ Block2D.v (Simulation.block_0 s') = (- Block2D.v (Simulation.block_0 s))%Qc
      /\ Block2D.x (Simulation.block_0 s')
         = (Block2D.size (Simulation.block_0 s) / Simulation.two)%Qc
      /\ Block2D.size (Simulation.block_0 s') = Block2D.size (Simulation.block_0 s)
      /\ Simulation.wall_collisions s' = Simulation.wall_collisions s + 1
      /\ Simulation.total_collisions s' = Simulation.total_collisions s + 1)
  /\ (exists s',
         Simulation.handle_collision wall_1 s = Ok s'
         /\ Block2D.v (Simulation.block_1 s') = (- Block2D.v (Simulation.block_1 s))%Qc
         /\ Block2D.x (Simulation.block_1 s')
            = (Block2D.size (Simulation.block_1 s) / Simulation.two)%Qc
         /\ Block2D.size (Simulation.block_1 s') = Block2D.size (Simulation.block_1 s)
         /\ Simulation.wall_collisions s' = Simulation.wall_collisions s + 1
         /\ Simulation.total_collisions s' = Simulation.total_collisions s + 1).
Proof.
  split.
  - unfold Simulation.handle_collision. cbn [Simulation.resolve bind].
    match goal with
    | |- context [Simulation._total_energy ?a ?b] =>
        destruct (total_energy_Ok a b) as [e ->];
        destruct (total_momentum_Ok a b) as [m ->]
    end.
    cbn [bind]. eexists. split; [reflexivity|]. cbn. repeat split.
  - unfold Simulation.handle_collision. cbn [Simulation.resolve bind].
    match goal with
    | |- context [Simulation._total_energy ?a ?b] =>
        destruct (total_energy_Ok a b) as [e ->];
        destruct (total_momentum_Ok a b) as [m ->]
    end.
    cbn [bind]. eexists. split; [reflexivity|]. cbn. repeat split.
Qed.

(** ** The step *)

Lemma handle_collision_counters (c : collision) (s s' : Simulation.t) :
  Simulation.handle_collision c s = Ok s' ->
  Simulation.total_collisions s' = Simulation.total_collisions s + 1
  /\ Simulation.wall_collisions s' + Simulation.block_collisions s'
     = Simulation.wall_collisions s + Simulation.block_collisions s + 1
  /\ Simulation.wall_collisions s <= Simulation.wall_collisions s'
  /\ Simulation.block_collisions s <= Simulation.block_collisions s'.
Proof.
  intros H. apply handle_collision_Ok in H.
  destruct H as (r & Hr & e & m & _ & _ & ->).
  exact (resolve_total_collisions c s r Hr).
Qed.

Lemma simplify_fractions_frame (s s' : Simulation.t) :
  Simulation.simplify_fractions s = Ok s' ->
  Simulation.wall_collisions s' = Simulation.wall_collisions s
  /\ Simulation.block_collisions s' = Simulation.block_collisions s
  /\ Simulation.total_collisions s' = Simulation.total_collisions s
  /\ Simulation.simplify_denominator s' = Simulation.simplify_denominator s
  /\ Block2D.mass (Simulation.block_0 s') = Block2D.mass (Simulation.block_0 s)
  /\ Block2D.mass (Simulation.block_1 s') = Block2D.mass (Simulation.block_1 s).
Proof.
  unfold Simulation.simplify_fractions. intros H. inv_bind. subst s'. cbn.
  repeat match goal with
         | H : Block2D.simplify _ _ = Ok _ |- _ =>
             apply Block2D_simplify_frame in H; destruct H as [-> _]
         end.
  repeat split.
Qed.

Lemma simplify_fractions_Ok (s : Simulation.t) :
  1 <= Simulation.simplify_denominator s ->
  exists s', Simulation.simplify_fractions s = Ok s'.
Proof.
  intros Hd. unfold Simulation.simplify_fractions.
  destruct (Block2D_simplify_Ok (Simulation.block_0 s) _ Hd) as (b0 & -> & _).
  destruct (Block2D_simplify_Ok (Simulation.block_1 s) _ Hd) as (b1 & -> & _).
  destruct (limit_denominator_total (Simulation.time_step s) _ Hd) as [ts ->].
  cbn. eauto.
Qed.

(** A step leaves the counters alone or counts one collision, and never
    touches the masses and the cap. *)
Lemma update_counters (s s' : Simulation.t) :
  Simulation.update s = Ok s' ->
  (Simulation.total_collisions s' = Simulation.total_collisions s
   /\ Simulation.wall_collisions s' = Simulation.wall_collisions s
   /\ Simulation.block_collisions s' = Simulation.block_collisions s)
  \/ (Simulation.total_collisions s' = Simulation.total_collisions s + 1
      /\ Simulation.wall_collisions s' + Simulation.block_collisions s'
         = Simulation.wall_collisions s + Simulation.block_collisions s + 1
      /\ Simulation.wall_collisions s <= Simulation.wall_collisions s'
      /\ Simulation.block_collisions s <= Simulation.block_collisions s').
Proof.
  unfold Simulation.update.
  destruct (Simulation.paused s).
  { intros H. injection H as <-. left. repeat split. }
  destruct (Simulation.detect_collisions s) as [c|].
  { intros H. right. exact (handle_collision_counters c s s' H). }
  intros H. apply bind_Ok in H. destruct H as (s1 & H1 & H).
  assert (Hs1 :
    (Simulation.total_collisions s1 = Simulation.total_collisions s
     /\ Simulation.wall_collisions s1 = Simulation.wall_collisions s
     /\ Simulation.block_collisions s1 = Simulation.block_collisions s)
    \/ (Simulation.total_collisions s1 = Simulation.total_collisions s + 1
        /\ Simulation.wall_collisions s1 + Simulation.block_collisions s1
           = Simulation.wall_collisions s + Simulation.block_collisions s + 1
        /\ Simulation.wall_collisions s <= Simulation.wall_collisions s1
        /\ Simulation.block_collisions s <= Simulation.block_collisions s1)).
  { destruct (Simulation.detect_collisions (Simulation.move s)) as [c|].
    - right. exact (handle_collision_counters c _ s1 H1).
    - injection H1 as <-. left. repeat split. }
  cbv zeta in H.
  destruct (_ <=? _) in H.
  - apply bind_Ok in H. destruct H as (s2 & H2 & H). injection H as <-.
    apply simplify_fractions_frame in H2. cbn in H2 |- *.
    destruct H2 as (-> & -> & -> & _). exact Hs1.
  - injection H as <-. cbn. exact Hs1.
Qed.

Lemma update_total (s : Simulation.t) :
  well_formed s -> exists s', Simulation.update s = Ok s' /\ well_formed s'.
Proof.
  intros Hwf. unfold Simulation.update.
  destruct (Simulation.paused s); [eauto|].
  destruct (Simulation.detect_collisions s) as [c|].
  { exact (handle_collision_total c s Hwf). }
  assert (Hmv : well_formed (Simulation.move s)) by exact Hwf.
  assert (H1 : exists s1,
             match Simulation.detect_collisions (Simulation.move s) with
             | Some c => Simulation.handle_collision c (Simulation.move s)
             | None => Ok (Simulation.move s)
             end = Ok s1 /\ well_formed s1).
  { destruct (Simulation.detect_collisions (Simulation.move s)) as [c|].
    - exact (handle_collision_total c _ Hmv).
    - eauto. }
  destruct H1 as (s1 & -> & Hwf1). cbn [bind]. cbv zeta.
  destruct (_ <=? _).
  - destruct (simplify_fractions_Ok
                (Simulation.set_simplify_counter s1 (Simulation.simplify_counter s1 + 1)))
      as [s2 H2]; [exact (proj2 Hwf1)|].
    rewrite H2. cbn [bind]. eexists. split; [reflexivity|].
    apply simplify_fractions_frame in H2.
    destruct H2 as (_ & _ & _ & Hd & Hm0 & Hm1).
    destruct Hwf1 as [Hw1 Hw2]. unfold well_formed. cbn in *.
    rewrite Hd, Hm0, Hm1. now split.
  - eexists. split; [reflexivity|]. exact Hwf1.
Qed.



(** ** Pause *)

(** C8: on a paused state any number of calls of [update] returns the very
    same state: no field changes. *)
Theorem paused_updates_identity (s : Simulation.t) (n : nat) :
  Simulation.paused s = true -> updates n s = Ok s.
Proof.
  intros Hp. induction n as [|n IH]; [reflexivity|].
  cbn [updates]. unfold Simulation.update. rewrite Hp. exact IH.
Qed.

Lemma paused_updates_identity_witness :
  updates 3 (Simulation.toggle_pause initial_state)
  = Ok (Simulation.toggle_pause initial_state).
Proof.
  apply (paused_updates_identity (Simulation.toggle_pause initial_state) 3).
  reflexivity.
Defined.

(** ** Counters along a run *)

Lemma adjust_precision_frame (s s' : Simulation.t) (increase : bool) :
  Simulation.adjust_precision s increase = Ok s' ->
  Simulation.wall_collisions s' = Simulation.wall_collisions s
  /\ Simulation.block_collisions s' = Simulation.block_collisions s
  /\ Simulation.total_collisions s' = Simulation.total_collisions s.
Proof.
  unfold Simulation.adjust_precision. intros H.
  apply simplify_fractions_frame in H.
  destruct increase; cbn in H; destruct H as (-> & -> & -> & _); repeat split.
Qed.

Lemma reset_Ok (s : Simulation.t) (mass_0 mass_1 v_1 : Qc) :
  exists b0 b1 e m,
    Block2D.init mass_0 (Fraction.of_int 0) (Fraction.of_int 150)
                 (Fraction.of_int 30) = Ok b0
    /\ Block2D.init mass_1 v_1 (Fraction.of_int 600) (Fraction.of_int 60) = Ok b1
    /\ Simulation._total_energy b0 b1 = Ok e
    /\ Simulation._total_momentum b0 b1 = Ok m
    /\ Simulation.reset s mass_0 mass_1 v_1
       = Ok (Simulation.mk (Simulation.width s) b0 b1 0 0 0
               (Simulation.time_step s) (Simulation.simulation_speed s)
               (Simulation.simplify_interval s) 0
               (Simulation.simplify_denominator s) e m e m
               (Simulation.paused s)).
Proof.
  destruct (Block2D_init_Ok mass_0 (Fraction.of_int 0) (Fraction.of_int 150)
              (Fraction.of_int 30)) as (b0 & Hb0 & _).
  destruct (Block2D_init_Ok mass_1 v_1 (Fraction.of_int 600)
              (Fraction.of_int 60)) as (b1 & Hb1 & _).
  destruct (total_energy_Ok b0 b1) as [e He].
  destruct (total_momentum_Ok b0 b1) as [m Hm].
  exists b0, b1, e, m. repeat split; try assumption.
  unfold Simulation.reset. rewrite Hb0. cbn [bind]. rewrite Hb1. cbn [bind].
  cbv zeta. cbn [Simulation.block_0 Simulation.block_1 Simulation.set_block_0
                 Simulation.set_block_1 Simulation.set_counters
                 Simulation.set_simplify_counter].
  rewrite He. cbn [bind]. rewrite Hm. reflexivity.
Qed.

Lemma perform_consistent (c : call) (s s' : Simulation.t) :
  counters_consistent s -> perform c s = Ok s' -> counters_consistent s'.
Proof.
  unfold counters_consistent. intros Hs H. destruct c; cbn in H.
  - destruct (update_counters s s' H) as [(-> & -> & ->)|(-> & Hsum & _)]; lia.
  - destruct (reset_Ok s mass_0 mass_1 v_1) as (b0 & b1 & e & m & _ & _ & _ & _ & Hr).
    rewrite Hr in H. injection H as <-. reflexivity.
  - injection H as <-. destruct increase; exact Hs.
  - apply adjust_precision_frame in H. destruct H as (-> & -> & ->). exact Hs.
  - injection H as <-. exact Hs.
Qed.

Lemma perform_counters_le (c : call) (s s' : Simulation.t) :
  is_reset c = false -> perform c s = Ok s' -> counters_le s s'.
Proof.
  unfold counters_le. intros Hc H. destruct c; cbn in H; try discriminate Hc.
  - destruct (update_counters s s' H) as [(-> & -> & ->)|(-> & _ & ? & ?)]; lia.
  - injection H as <-. destruct increase; cbn; lia.
  - apply adjust_precision_frame in H. destruct H as (-> & -> & ->). lia.
  - injection H as <-. cbn. lia.
Qed.

Lemma perform_total (c : call) (s : Simulation.t) :
  is_reset c = false -> well_formed s ->
  exists s', perform c s = Ok s' /\ well_formed s'.
Proof.
  intros Hc Hwf. destruct c; cbn; try discriminate Hc.
  - exact (update_total s Hwf).
  - eexists. split; [reflexivity|]. destruct increase; exact Hwf.
  - unfold Simulation.adjust_precision.
    set (s1 := if increase then _ else _).
    assert (Hwf1 : well_formed s1).
    { destruct Hwf as [Hm Hd]. subst s1.
      destruct increase; split; cbn; try exact Hm; lia. }
    destruct (simplify_fractions_Ok s1 (proj2 Hwf1)) as [s2 H2].
    exists s2. split; [exact H2|].
    apply simplify_fractions_frame in H2.
    destruct H2 as (_ & _ & _ & Hd & Hm0 & Hm1).
    destruct Hwf1 as [Hw1 Hw2]. unfold well_formed.
    rewrite Hd, Hm0, Hm1. now split.
  - eexists. split; [reflexivity|]. exact Hwf.
Qed.

Lemma run_consistent (cs : list call) :
  forall s s', counters_consistent s -> run cs s = Ok s' -> counters_consistent s'.
Proof.
  induction cs as [|c cs IH]; intros s s' Hs H; cbn in H.
  - injection H as <-. exact Hs.
  - apply bind_Ok in H. destruct H as (s1 & H1 & H).
    exact (IH s1 s' (perform_consistent c s s1 Hs H1) H).
Qed.

Lemma run_counters_le (cs : list call) :
  forall s s',
    forallb (fun c => negb (is_reset c)) cs = true ->
    run cs s = Ok s' -> counters_le s s'.
Proof.
  induction cs as [|c cs IH]; intros s s' Hcs H; cbn in H, Hcs.
  - injection H as <-. unfold counters_le. lia.
  - apply andb_true_iff in Hcs. destruct Hcs as [Hc Hcs].
    apply negb_true_iff in Hc.
    apply bind_Ok in H. destruct H as (s1 & H1 & H).
    pose proof (perform_counters_le c s s1 Hc H1) as (? & ? & ?).
    pose proof (IH s1 s' Hcs H) as (? & ? & ?).
    unfold counters_le. lia.
Qed.

Lemma run_total (cs : list call) :
  forall s,
    forallb (fun c => negb (is_reset c)) cs = true ->
    well_formed s -> exists s', run cs s = Ok s' /\ well_formed s'.
Proof.
  induction cs as [|c cs IH]; intros s Hcs Hwf; cbn in Hcs |- *.
  - eauto.
  - apply andb_true_iff in Hcs. destruct Hcs as [Hc Hcs].
    apply negb_true_iff in Hc.
    destruct (perform_total c s Hc Hwf) as (s1 & -> & Hwf1). cbn [bind].
    exact (IH s1 Hcs Hwf1).
Qed.

Lemma init_Ok (width : Z) :
  exists s0,
    Simulation.init width = Ok s0
    /\ counters_consistent s0 /\ well_formed s0
    /\ Simulation.block_0 s0 = initial_block_0
    /\ Simulation.block_1 s0 = initial_block_1
    /\ totals_capped (10 ^ 9) s0.
Proof.
  eexists. split; [reflexivity|]. cbn.
  split; [reflexivity|]. split.
  - split; [|now vm_compute]. intros H. apply (f_equal this) in H.
    vm_compute in H. discriminate H.
  - split; [reflexivity|]. split; [reflexivity|]. split; reflexivity.
Qed.

(** C6: after construction and after every sequence of calls made on the
    constructed simulation (resets included) [total_collisions] is
    [wall_collisions + block_collisions]; along a sequence of calls without
    a reset no counter decreases, from whatever state it starts; and such a
    sequence on the constructed simulation raises nothing. *)
Theorem counters_consistent_monotone (width : Z) (cs : list call) :
  (exists s0, Simulation.init width = Ok s0 /\ counters_consistent s0)
  /\ (forall s0 s', Simulation.init width = Ok s0 -> run cs s0 = Ok s' ->
                    counters_consistent s')
  /\ (forall s s', forallb (fun c => negb (is_reset c)) cs = true ->
                   run cs s = Ok s' -> counters_le s s')
  /\ (forall s0, forallb (fun c => negb (is_reset c)) cs = true ->
                 Simulation.init width = Ok s0 -> exists s', run cs s0 = Ok s').
Proof.
  destruct (init_Ok width) as (s0 & H0 & Hc0 & Hwf0 & _).
  split; [now exists s0|]. split; [|split].
  - intros s0' s' H0' H. rewrite H0 in H0'. injection H0' as <-.
    exact (run_consistent cs s0 s' Hc0 H).
  - intros s s'. exact (run_counters_le cs s s').
  - intros s0' Hcs H0'. rewrite H0 in H0'. injection H0' as <-.
    destruct (run_total cs s0 Hcs Hwf0) as (s' & H & _). eauto.
Qed.

Lemma low_precision_collision_counters :
  exists s',
    run [AdjustPrecision false; AdjustPrecision false; AdjustPrecision false;
         AdjustPrecision false; AdjustPrecision false; AdjustPrecision false;
         Reset (Fraction.of_int 1) (Fraction.of_int 10000)
               (Fraction.of_int (-40500));
         Update] initial_state = Ok s'
    /\ Simulation.wall_collisions s' = 0
    /\ Simulation.block_collisions s' = 1
    /\ Simulation.total_collisions s' = 1.
Proof.
  eexists. split; [vm_compute; reflexivity|]. repeat split.
Qed.

Lemma at_wall_0_run_counters :
  exists s',
    run [Update; AdjustSpeed true; Update] at_wall_0 = Ok s'
    /\ Simulation.wall_collisions s' = 1
    /\ Simulation.block_collisions s' = 0
    /\ Simulation.total_collisions s' = 1.
Proof.
  eexists. split; [vm_compute; reflexivity|]. repeat split.
Qed.

(** Two runs that count: a run from the constructed state (that of
    [low_precision_collision]), with a reset and a collision of the blocks,
    ends with the counters (0, 1, 1); a run without a reset from a block at
    the wall takes the counters from (0, 0, 0) to (1, 0, 1). *)
Lemma counters_consistent_monotone_witness :
  (exists s',
      run [AdjustPrecision false; AdjustPrecision false; AdjustPrecision false;
         AdjustPrecision false; AdjustPrecision false; AdjustPrecision false;
         Reset (Fraction.of_int 1) (Fraction.of_int 10000)
               (Fraction.of_int (-40500));
         Update] initial_state = Ok s'
      /\ counters_consistent s'
      /\ Simulation.block_collisions s' = 1
      /\ Simulation.total_collisions s' = 1)
  /\ (exists s',
         run [Update; AdjustSpeed true; Update] at_wall_0 = Ok s'
         /\ counters_le at_wall_0 s'
         /\ Simulation.wall_collisions s' = 1
         /\ Simulation.total_collisions s' = 1).
Proof.
  split.
  - destruct low_precision_collision_counters as (s' & H & _ & Hb & Ht).
    exists s'. split; [exact H|]. split; [|split; assumption].
    destruct (counters_consistent_monotone 1200
                [AdjustPrecision false; AdjustPrecision false;
                 AdjustPrecision false; AdjustPrecision false;
                 AdjustPrecision false; AdjustPrecision false;
                 Reset (Fraction.of_int 1) (Fraction.of_int 10000)
                       (Fraction.of_int (-40500));
                 Update])
      as (_ & Hc & _).
    exact (Hc initial_state s' init_1200 H).
  - destruct at_wall_0_run_counters as (s' & H & Hw & _ & Ht).
    exists s'. split; [exact H|]. split; [|split; assumption].
    destruct (counters_consistent_monotone 1200
                [Update; AdjustSpeed true; Update])
      as (_ & _ & Hle & _).
    exact (Hle at_wall_0 s' eq_refl H).
Defined.

(** ** The cached totals *)

Lemma fine_velocity_denominator : 10 ^ 9 < Fraction.denominator fine_velocity.
Proof. reflexivity. Qed.

(** C3, the code's behaviour: whenever the cached totals are recomputed (by
    a collision resolution, by a reset, by the constructor) they are the
    exact energy and momentum of the blocks capped with the constant
    [10**9], whatever [simplify_denominator] is. *)
Theorem recomputed_totals_capped_at_1e9 :
  (forall c s s', Simulation.handle_collision c s = Ok s' ->
                  totals_capped (10 ^ 9) s')
  /\ (forall s mass_0 mass_1 v_1 s',
         Simulation.reset s mass_0 mass_1 v_1 = Ok s' ->
         totals_capped (10 ^ 9) s')
  /\ (forall width s', Simulation.init width = Ok s' -> totals_capped (10 ^ 9) s').
Proof.
  split; [|split].
  - intros c s s' H. apply handle_collision_Ok in H.
    destruct H as (r & _ & e & m & He & Hm & ->). split; [exact He|exact Hm].
  - intros s mass_0 mass_1 v_1 s' H.
    destruct (reset_Ok s mass_0 mass_1 v_1) as (b0 & b1 & e & m & _ & _ & He & Hm & Hr).
    rewrite Hr in H. injection H as <-. split; [exact He|exact Hm].
  - intros width s' H.
    destruct (init_Ok width) as (s0 & H0 & _ & _ & _ & _ & Ht).
    rewrite H0 in H. injection H as <-. exact Ht.
Qed.

Lemma recomputed_totals_capped_at_1e9_witness :
  exists s',
    Simulation.handle_collision wall_0 initial_state = Ok s'
    /\ totals_capped (10 ^ 9) s'.
Proof.
  destruct (handle_collision_total wall_0 initial_state initial_state_well_formed)
    as (s' & H & _).
  exists s'. split; [exact H|].
  exact (proj1 recomputed_totals_capped_at_1e9 wall_0 initial_state s' H).
Defined.

(** C3 as stated fails: with the cap lowered to [10**3] a collision leaves a
    cached energy that is not the exact energy capped with the current
    [simplify_denominator]. *)
Lemma totals_not_capped_at_current_precision :
  exists s',
    low_precision_collision = Ok s'
    /\ Simulation.simplify_denominator s' = 10 ^ 3
    /\ Simulation.total_collisions s' = 1
    /\ ~ totals_capped (Simulation.simplify_denominator s') s'.
Proof.
  eexists. split; [vm_compute; reflexivity|].
  split; [reflexivity|]. split; [reflexivity|].
  intros [H _]. vm_compute in H. discriminate H.
Qed.

(** ** Reset *)

(** C9, the code's behaviour: a reset raises nothing; it zeroes the three
    collision counters and [simplify_counter]; block 0 stands at 150 with
    velocity 0 and block 1 at 600 with [v_1] capped at denominator [10**9],
    which is [v_1] itself when its denominator is at most [10**9]; and the
    initial energy and momentum are the freshly recomputed totals of the new
    blocks. *)
Theorem reset_baseline (s : Simulation.t) (mass_0 mass_1 v_1 : Qc) :
  exists s',
    Simulation.reset s mass_0 mass_1 v_1 = Ok s'
    /\ Simulation.wall_collisions s' = 0
    /\ Simulation.block_collisions s' = 0
    /\ Simulation.total_collisions s' = 0
    /\ Simulation.simplify_counter s' = 0
    /\ Block2D.x (Simulation.block_0 s') = Fraction.of_int 150
    /\ Block2D.v (Simulation.block_0 s') = Fraction.of_int 0
    /\ Block2D.x (Simulation.block_1 s') = Fraction.of_int 600
    /\ Fraction.limit_denominator v_1 (10 ^ 9) = Ok (Block2D.v (Simulation.block_1 s'))
    /\ (Fraction.denominator v_1 <= 10 ^ 9 ->
        Block2D.v (Simulation.block_1 s') = v_1)
    /\ Simulation._total_energy (Simulation.block_0 s') (Simulation.block_1 s')
       = Ok (Simulation.total_energy s')
    /\ Simulation._total_momentum (Simulation.block_0 s') (Simulation.block_1 s')
       = Ok (Simulation.total_momentum s')
    /\ Simulation.initial_energy s' = Simulation.total_energy s'
    /\ Simulation.initial_momentum s' = Simulation.total_momentum s'.
Proof.
  destruct (reset_Ok s mass_0 mass_1 v_1)
    as (b0 & b1 & e & m & Hb0 & Hb1 & He & Hm & Hr).
  destruct (Block2D_init_Ok mass_0 (Fraction.of_int 0) (Fraction.of_int 150)
              (Fraction.of_int 30)) as (b0' & Hb0' & _ & Hv0 & Hx0 & _).
  destruct (Block2D_init_Ok mass_1 v_1 (Fraction.of_int 600)
              (Fraction.of_int 60)) as (b1' & Hb1' & _ & Hv1 & Hx1 & _).
  rewrite Hb0 in Hb0'. injection Hb0' as <-.
  rewrite Hb1 in Hb1'. injection Hb1' as <-.
  rewrite limit_denominator_of_int in Hv0, Hx0, Hx1 by exact cap_legal.
  injection Hv0 as Hv0. injection Hx0 as Hx0. injection Hx1 as Hx1.
  eexists. split; [exact Hr|]. cbn.
  repeat split; auto.
  intros Hden. rewrite limit_denominator_small in Hv1 by (exact cap_legal || exact Hden).
  now injection Hv1.
Qed.

Lemma reset_baseline_witness :
  exists s',
    Simulation.reset initial_state (Fraction.of_int 1) (Fraction.of_int 100)
                     (Fraction.of_int (-1)) = Ok s'
    /\ Simulation.total_collisions s' = 0
    /\ Block2D.v (Simulation.block_1 s') = Fraction.of_int (-1)
    /\ Simulation.initial_energy s' = Simulation.total_energy s'.
Proof.
  destruct (reset_baseline initial_state (Fraction.of_int 1) (Fraction.of_int 100)
              (Fraction.of_int (-1)))
    as (s' & H & _ & _ & Ht & _ & _ & _ & _ & _ & Hv & _ & _ & Hi & _).
  exists s'. split; [exact H|]. split; [exact Ht|]. split; [|exact Hi].
  apply Hv. now vm_compute.
Defined.

(** C9 as stated fails: a velocity of denominator above [10**9] is not the
    velocity block 1 gets. *)
Lemma reset_velocity_is_capped :
  exists s',
    Simulation.reset initial_state (Fraction.of_int 1) (Fraction.of_int 10000)
                     fine_velocity = Ok s'
    /\ Block2D.v (Simulation.block_1 s') = Fraction.make 1 1000000000
    /\ Block2D.v (Simulation.block_1 s') <> fine_velocity.
Proof.
  eexists. split; [vm_compute; reflexivity|]. split.
  - apply Qc_is_canon. reflexivity.
  - intros H. apply (f_equal this) in H. vm_compute in H. discriminate H.
Qed.

(** C10: a reset raises nothing and leaves [paused], [simulation_speed] and
    [simplify_denominator] as they were (and the width, the time step and
    the simplification interval too). *)
Theorem reset_keeps_tuning (s : Simulation.t) (mass_0 mass_1 v_1 : Qc) :
  exists s',
    Simulation.reset s mass_0 mass_1 v_1 = Ok s'
    /\ Simulation.paused s' = Simulation.paused s
    /\ Simulation.simulation_speed s' = Simulation.simulation_speed s
    /\ Simulation.simplify_denominator s' = Simulation.simplify_denominator s
    /\ Simulation.time_step s' = Simulation.time_step s
    /\ Simulation.simplify_interval s' = Simulation.simplify_interval s
    /\ Simulation.width s' = Simulation.width s.
Proof.
  destruct (reset_Ok s mass_0 mass_1 v_1)
    as (b0 & b1 & e & m & _ & _ & _ & _ & Hr).
  eexists. split; [exact Hr|]. cbn. repeat split.
Qed.

(** C2, the code's behaviour: the constructor takes no mass and no size and
    builds the masses 1 and 10000 and the sizes 30 and 60; a reset takes no
    size, checks nothing and raises nothing, whatever the signs of its
    masses: the blocks get the masses capped at denominator [10**9] (the
    arguments themselves when their denominators are at most [10**9]) and
    the sizes 30 and 60. *)
Theorem reset_accepts_any_mass (s : Simulation.t) (mass_0 mass_1 v_1 : Qc) :
  (exists s',
      Simulation.reset s mass_0 mass_1 v_1 = Ok s'
      /\ Fraction.limit_denominator mass_0 (10 ^ 9)
         = Ok (Block2D.mass (Simulation.block_0 s'))
      /\ Fraction.limit_denominator mass_1 (10 ^ 9)
         = Ok (Block2D.mass (Simulation.block_1 s'))
      /\ (Fraction.denominator mass_0 <= 10 ^ 9 ->
          Block2D.mass (Simulation.block_0 s') = mass_0)
      /\ (Fraction.denominator mass_1 <= 10 ^ 9 ->
          Block2D.mass (Simulation.block_1 s') = mass_1)
      /\ Block2D.size (Simulation.block_0 s') = Fraction.of_int 30
      /\ Block2D.size (Simulation.block_1 s') = Fraction.of_int 60)
  /\ (forall width, exists s0,
         Simulation.init width = Ok s0
         /\ Block2D.mass (Simulation.block_0 s0) = Fraction.of_int 1
         /\ Block2D.mass (Simulation.block_1 s0) = Fraction.of_int 10000
         /\ Block2D.size (Simulation.block_0 s0) = Fraction.of_int 30
         /\ Block2D.size (Simulation.block_1 s0) = Fraction.of_int 60).
Proof.
  split.
  - destruct (reset_Ok s mass_0 mass_1 v_1)
      as (b0 & b1 & e & m & Hb0 & Hb1 & _ & _ & Hr).
    destruct (Block2D_init_Ok mass_0 (Fraction.of_int 0) (Fraction.of_int 150)
                (Fraction.of_int 30)) as (b0' & Hb0' & Hm0 & _ & _ & Hs0).
    destruct (Block2D_init_Ok mass_1 v_1 (Fraction.of_int 600)
                (Fraction.of_int 60)) as (b1' & Hb1' & Hm1 & _ & _ & Hs1).
    rewrite Hb0 in Hb0'. injection Hb0' as <-.
    rewrite Hb1 in Hb1'. injection Hb1' as <-.
    rewrite limit_denominator_of_int in Hs0, Hs1 by exact cap_legal.
    injection Hs0 as Hs0. injection Hs1 as Hs1.
    eexists. split; [exact Hr|]. cbn.
    repeat split; auto.
    + intros Hden.
      rewrite limit_denominator_small in Hm0 by (exact cap_legal || exact Hden).
      now injection Hm0.
    + intros Hden.
      rewrite limit_denominator_small in Hm1 by (exact cap_legal || exact Hden).
      now injection Hm1.
  - intros width.
    destruct (init_Ok width) as (s0 & H0 & _ & _ & Hb0 & Hb1 & _).
    exists s0. split; [exact H0|]. rewrite Hb0, Hb1. repeat split.
Qed.

Lemma reset_accepts_any_mass_witness :
  exists s',
    Simulation.reset initial_state (Fraction.of_int (-3)) (Fraction.of_int 7)
                     (Fraction.of_int (-5)) = Ok s'
    /\ Block2D.mass (Simulation.block_0 s') = Fraction.of_int (-3)
    /\ Block2D.mass (Simulation.block_1 s') = Fraction.of_int 7.
Proof.
  destruct (reset_accepts_any_mass initial_state (Fraction.of_int (-3))
              (Fraction.of_int 7) (Fraction.of_int (-5)))
    as ((s' & H & _ & _ & H0 & H1 & _) & _).
  exists s'. split; [exact H|]. split.
  - apply H0. now vm_compute.
  - apply H1. now vm_compute.
Defined.

(** C2 as stated fails: a reset with two zero masses is not rejected; it
    returns a state whose blocks have mass zero, and the division by zero
    shows up only when a collision of the blocks is resolved. *)
Lemma reset_does_not_reject :
  exists s',
    Simulation.reset initial_state (Fraction.of_int 0) (Fraction.of_int 0)
                     (Fraction.of_int (-5)) = Ok s'
    /\ Block2D.mass (Simulation.block_0 s') = Fraction.of_int 0
    /\ Block2D.mass (Simulation.block_1 s') = Fraction.of_int 0
    /\ Simulation.handle_collision blocks s' = Raise ZeroDivisionError.
Proof.
  eexists. split; [vm_compute; reflexivity|].
  split; [reflexivity|]. split; [reflexivity|]. reflexivity.
Qed.

(** * More of the kernel *)

(** ** Rounding *)

(** What holds at the [break] of the loop, whenever it is reached. *)
Lemma limit_loop_break (maxd N D : Z) (fuel : nat) :
  forall p0 q0 p1 q1 n d p0' q0' p1' q1' d',
    Fraction.limit_loop fuel maxd p0 q0 p1 q1 n d = Ok (p0', q0', p1', q1', d') ->
    0 <= d < n ->
    p1 * n + p0 * d = N ->
    q1 * n + q0 * d = D ->
    exists n',
      0 < d' < n'
      /\ p1' * n' + p0' * d' = N
      /\ q1' * n' + q0' * d' = D
      /\ maxd < q0' + n' / d' * q1'.
Proof.
  induction fuel as [|fuel IH];
    intros p0 q0 p1 q1 n d p0' q0' p1' q1' d' H Hd HN HD.
  - discriminate H.
  - rewrite limit_loop_S in H.
    destruct (Z.eqb_spec d 0) as [|Hd0]; [discriminate H|].
    destruct (Z.gtb_spec (q0 + n / d * q1) maxd) as [Hbrk|Hcont].
    + injection H as <- <- <- <- <-. exists n. repeat split; lia.
    + apply IH in H; [exact H| | |].
      * pose proof (Z.mod_pos_bound n d ltac:(lia)) as Hb.
        rewrite Z.mod_eq in Hb by lia. lia.
      * rewrite <- HN. ring.
      * rewrite <- HD. ring.
Qed.

(** The rounding of [limit_denominator] is within [1 / (2 * max_denominator)]:
    with [x = N/D] and [y = P/Q], [2 * m * |N*Q - P*D| <= D*Q]. *)
Lemma limit_denominator_error_Z (x y : Qc) (m : Z) :
  Fraction.limit_denominator x m = Ok y ->
  2 * m * Z.abs (Fraction.numerator x * Fraction.denominator y
                 - Fraction.numerator y * Fraction.denominator x)
  <= Fraction.denominator x * Fraction.denominator y.
Proof.
  intros H.
  assert (HDx : 0 < Fraction.denominator x) by (unfold Fraction.denominator; lia).
  unfold Fraction.limit_denominator in H.
  destruct (Z.ltb_spec m 1) as [|Hm]; [discriminate H|].
  destruct (Z.leb_spec (Fraction.denominator x) m) as [Hden|Hden].
  { injection H as <-.
    replace (_ - _) with 0 by ring. cbn [Z.abs]. nia. }
  pose proof (canonical_gcd x) as Hg.
  unfold Fraction.loop_fuel in H.
  set (D := Fraction.denominator x) in *. set (N := Fraction.numerator x) in *.
  assert (Hsz : D < 2 ^ Z.of_nat (Pos.size_nat (Qden (this x)))).
  { apply Zpower2_Psize. lia. }
  set (sz := Pos.size_nat (Qden (this x))) in *.
  rewrite limit_loop_S in H.
  destruct (Z.eqb_spec D 0) as [|_]; [lia|].
  replace (1 + N / D * 0) with 1 in H by ring.
  destruct (Z.gtb_spec 1 m) as [|_]; [lia|].
  pose proof (Z.mod_pos_bound N D HDx) as Hr.
  rewrite Z.mod_eq in Hr by lia.
  destruct (limit_loop_total m D (2 * sz) 1 0 (0 + N / D * 1) 1 D (N - N / D * D))
    as (p0 & q0 & p1 & q1 & d & Hloop & Hq0 & Hq1 & Hdet); try lia.
  { replace (N - N / D * D) with (N + (- (N / D)) * D) by ring.
    rewrite Z.gcd_add_mult_diag_r, Z.gcd_comm. exact Hg. }
  { replace (Z.of_nat (2 * sz)) with (Z.of_nat sz + Z.of_nat sz) by lia.
    rewrite Z.pow_add_r by lia. nia. }
  rewrite Hloop in H. cbn [bind] in H.
  destruct (limit_loop_break m N D _ _ _ _ _ _ _ _ _ _ _ _ Hloop) as (n & Hn & HN & HD & Hbrk);
    [lia | ring | ring |].
  destruct (Z.eqb_spec q1 0) as [|_]; [lia|].
  set (k := (m - q0) / q1) in *.
  assert (Hk : 0 <= m - q0 - k * q1 < q1).
  { subst k. pose proof (Z.mod_pos_bound (m - q0) q1 ltac:(lia)) as Hb.
    rewrite Z.mod_eq in Hb by lia. lia. }
  assert (Hk0 : 0 <= k) by nia.
  set (a := n / d) in *.
  assert (Ha : 0 <= n - a * d < d).
  { subst a. pose proof (Z.mod_pos_bound n d ltac:(lia)) as Hb.
    rewrite Z.mod_eq in Hb by lia. lia. }
  assert (Hka : k + 1 <= a) by nia.
  assert (Hnk : d <= n - k * d) by nia.
  assert (Hmq : m <= q1 * (q0 + k * q1)) by nia.
  assert (Hsum : d * (q0 + k * q1) + q1 * (n - k * d) = D) by (rewrite <- HD; ring).
  destruct (Z.leb_spec (2 * d * (q0 + k * q1)) D) as [Hc|Hc]; injection H as <-.
  - unfold Fraction.numerator, Fraction.denominator.
    rewrite Q2Qc_lowest_terms by (lia || exact (neighbours_coprime p0 q0 p1 q1 Hdet)).
    cbn [Qnum Qden]. rewrite Z2Pos.id by lia.
    fold N. fold D.
    replace (N * q1 - p1 * D) with (d * (p0 * q1 - p1 * q0))
      by (rewrite <- HN, <- HD; ring).
    rewrite Z.abs_mul, Hdet, (Z.abs_eq d) by lia. nia.
  - assert (Hg2 : Z.gcd (p0 + k * p1) (q0 + k * q1) = 1).
    { apply (neighbours_coprime p1 q1). rewrite <- Hdet, <- Z.abs_opp.
      f_equal. ring. }
    unfold Fraction.numerator, Fraction.denominator.
    rewrite Q2Qc_lowest_terms by (lia || exact Hg2).
    cbn [Qnum Qden]. rewrite Z2Pos.id by lia.
    fold N. fold D.
    replace (N * (q0 + k * q1) - (p0 + k * p1) * D)
      with ((k * d - n) * (p0 * q1 - p1 * q0))
      by (rewrite <- HN, <- HD; ring).
    rewrite Z.abs_mul, Hdet, <- Z.abs_opp, (Z.abs_eq (- (k * d - n))) by lia. nia.
Qed.

Lemma limit_denominator_legal (x y : Qc) (m : Z) :
  Fraction.limit_denominator x m = Ok y -> 1 <= m.
Proof.
  unfold Fraction.limit_denominator.
  destruct (Z.ltb_spec m 1); [discriminate|lia].
Qed.

Lemma Qc_diff_le (x y : Qc) (m : Z) :
  1 <= m ->
  2 * m * (Fraction.numerator x * Fraction.denominator y
           - Fraction.numerator y * Fraction.denominator x)
  <= Fraction.denominator x * Fraction.denominator y ->
  (x - y <= tolerance m)%Qc.
Proof.
  intros Hm H. unfold Qcle, tolerance, Fraction.make, Qcminus, Qcplus, Qcopp.
  cbn [this Q2Qc]. rewrite !Qred_correct.
  unfold Fraction.numerator, Fraction.denominator in H.
  destruct (this x) as [nx dx], (this y) as [ny dy].
  unfold Qle, Qplus, Qopp. cbn [Qnum Qden] in *.
  rewrite Z2Pos.id by lia. rewrite Pos2Z.inj_mul. lia.
Qed.

Lemma limit_denominator_error (x y : Qc) (m : Z) :
  Fraction.limit_denominator x m = Ok y ->
  (x - y <= tolerance m)%Qc /\ (y - x <= tolerance m)%Qc.
Proof.
  intros H. pose proof (limit_denominator_legal x y m H) as Hm.
  pose proof (limit_denominator_error_Z x y m H) as He.
  set (A := Fraction.numerator x * Fraction.denominator y
            - Fraction.numerator y * Fraction.denominator x) in He.
  assert (H1 : 2 * m * A <= 2 * m * Z.abs A)
    by (apply Z.mul_le_mono_nonneg_l; lia).
  assert (H2 : 2 * m * (- A) <= 2 * m * Z.abs A)
    by (apply Z.mul_le_mono_nonneg_l; lia).
  subst A. split; apply Qc_diff_le; try exact Hm.
  - lia.
  - replace (Fraction.numerator y * Fraction.denominator x
             - Fraction.numerator x * Fraction.denominator y)
      with (- (Fraction.numerator x * Fraction.denominator y
               - Fraction.numerator y * Fraction.denominator x)) by ring.
    lia.
Qed.


Lemma limit_denominator_illegal_bound (x : Qc) (m : Z) :
  m < 1 -> Fraction.limit_denominator x m = Raise ValueError.
Proof.
  intros Hm. unfold Fraction.limit_denominator.
  destruct (Z.ltb_spec m 1); [reflexivity|lia].
Qed.

(** ** [Block2D.simplify] and [simplify_fractions] *)

(** X1: [Block2D.simplify] raises [ValueError] exactly on a bound below 1;
    on a legal bound it returns a block of the same mass and size whose
    velocity and position have denominators within the bound. *)
Theorem Block2D_simplify_result (b : Block2D.t) (m : Z) :
  (m < 1 -> Block2D.simplify b m = Raise ValueError)
  /\ (1 <= m ->
      exists b',
        Block2D.simplify b m = Ok b'
        /\ Block2D.mass b' = Block2D.mass b
        /\ Block2D.size b' = Block2D.size b
        /\ Fraction.denominator (Block2D.v b') <= m
        /\ Fraction.denominator (Block2D.x b') <= m).
Proof.
  split.
  - intros Hm. unfold Block2D.simplify.
    now rewrite limit_denominator_illegal_bound.
  - intros Hm. unfold Block2D.simplify.
    destruct (limit_denominator_total (Block2D.v b) m Hm) as [v' Hv].
    destruct (limit_denominator_total (Block2D.x b) m Hm) as [x' Hx].
    rewrite Hv, Hx. cbn. eexists. split; [reflexivity|]. cbn.
    repeat split.
    + exact (limit_denominator_capped _ _ _ Hv).
    + exact (limit_denominator_capped _ _ _ Hx).
Qed.

Lemma Block2D_simplify_result_witness :
  Block2D.simplify rounded_block 0 = Raise ValueError
  /\ exists b',
      Block2D.simplify rounded_block 1000 = Ok b'
      /\ Block2D.mass b' = Block2D.mass rounded_block
      /\ Block2D.size b' = Block2D.size rounded_block
      /\ Fraction.denominator (Block2D.v b') <= 1000
      /\ Fraction.denominator (Block2D.x b') <= 1000.
Proof.
  destruct (Block2D_simplify_result rounded_block 0) as [H0 _].
  destruct (Block2D_simplify_result rounded_block 1000) as [_ H1].
  split; [apply H0; reflexivity|apply H1; by_computation].
Defined.

(** X2: [Block2D.simplify] moves the velocity and the position by at most
    [1 / (2 * max_denominator)] each. *)
Theorem Block2D_simplify_rounding (b b' : Block2D.t) (m : Z) :
  Block2D.simplify b m = Ok b' ->
  (Block2D.v b - Block2D.v b' <= tolerance m)%Qc
  /\ (Block2D.v b' - Block2D.v b <= tolerance m)%Qc
  /\ (Block2D.x b - Block2D.x b' <= tolerance m)%Qc
  /\ (Block2D.x b' - Block2D.x b <= tolerance m)%Qc.
Proof.
  unfold Block2D.simplify. intros H. inv_bind. subst b'. cbn.
  repeat match goal with
         | H : Fraction.limit_denominator _ _ = Ok _ |- _ =>
             apply limit_denominator_error in H; destruct H
         end.
  repeat split; assumption.
Qed.

Lemma Block2D_simplify_rounding_witness :
  let b' := Block2D.mk (Fraction.of_int 1) (Fraction.make (-9999) 1000)
                       (Fraction.of_int 150) (Fraction.of_int 30) in
  (Block2D.v rounded_block - Block2D.v b' <= tolerance 1000)%Qc
  /\ (Block2D.v b' - Block2D.v rounded_block <= tolerance 1000)%Qc
  /\ (Block2D.x rounded_block - Block2D.x b' <= tolerance 1000)%Qc
  /\ (Block2D.x b' - Block2D.x rounded_block <= tolerance 1000)%Qc.
Proof.
  intros b'. apply (Block2D_simplify_rounding rounded_block b' 1000).
  vm_compute. reflexivity.
Defined.






(** ** Elastic collisions *)

Lemma Qcpower_2 (a : Qc) : (a ^ 2 = a * a)%Qc.
Proof. cbn [Qcpower]. ring. Qed.

(** X5: the elastic formulas keep the kinetic energy exactly, before any
    capping, whenever the masses do not cancel. *)
Theorem elastic_collision_energy (m0 m1 v0 v1 : Qc) :
  (m0 + m1)%Qc <> 0%Qc ->
  exists newV0 newV1 : Qc,
    Simulation.elastic_velocities m0 m1 v0 v1 = Ok (newV0, newV1)
    /\ (m0 * newV0 ^ 2 / Simulation.two + m1 * newV1 ^ 2 / Simulation.two
        = m0 * v0 ^ 2 / Simulation.two + m1 * v1 ^ 2 / Simulation.two)%Qc.
Proof.
  intros Hsum. eexists. eexists.
  split; [apply elastic_velocities_Ok; exact Hsum|].
  rewrite !Qcpower_2, two_eq. field.
  repeat split; try exact Hsum.
  intros H. apply (f_equal this) in H. discriminate H.
Qed.

Lemma elastic_collision_energy_witness :
  exists newV0 newV1 : Qc,
    Simulation.elastic_velocities (Fraction.of_int 1) (Fraction.of_int 10000)
      (Fraction.of_int 0) (Fraction.of_int (-5)) = Ok (newV0, newV1)
    /\ (Fraction.of_int 1 * newV0 ^ 2 / Simulation.two
        + Fraction.of_int 10000 * newV1 ^ 2 / Simulation.two
        = Fraction.of_int 1 * Fraction.of_int 0 ^ 2 / Simulation.two
          + Fraction.of_int 10000 * Fraction.of_int (-5) ^ 2 / Simulation.two)%Qc.
Proof.
  apply (elastic_collision_energy (Fraction.of_int 1) (Fraction.of_int 10000)
           (Fraction.of_int 0) (Fraction.of_int (-5))).
  intros H. apply (f_equal this) in H. vm_compute in H. discriminate H.
Defined.

(** X6: the elastic formulas reverse the relative velocity: the blocks
    separate exactly as fast as they approached. *)
Theorem elastic_collision_reverses_approach (m0 m1 v0 v1 : Qc) :
  (m0 + m1)%Qc <> 0%Qc ->
  exists newV0 newV1 : Qc,
    Simulation.elastic_velocities m0 m1 v0 v1 = Ok (newV0, newV1)
    /\ (newV1 - newV0 = v0 - v1)%Qc.
Proof.
  intros Hsum. eexists. eexists.
  split; [apply elastic_velocities_Ok; exact Hsum|].
  rewrite two_eq. field. exact Hsum.
Qed.

Lemma elastic_collision_reverses_approach_witness :
  exists newV0 newV1 : Qc,
    Simulation.elastic_velocities (Fraction.of_int 1) (Fraction.of_int 10000)
      (Fraction.of_int 0) (Fraction.of_int (-5)) = Ok (newV0, newV1)
    /\ (newV1 - newV0 = Fraction.of_int 0 - Fraction.of_int (-5))%Qc.
Proof.
  apply (elastic_collision_reverses_approach (Fraction.of_int 1)
           (Fraction.of_int 10000) (Fraction.of_int 0) (Fraction.of_int (-5))).
  intros H. apply (f_equal this) in H. vm_compute in H. discriminate H.
Defined.

(** X7: two blocks of the same non-zero mass exchange their velocities. *)
Theorem elastic_collision_equal_masses (m v0 v1 : Qc) :
  m <> 0%Qc ->
  Simulation.elastic_velocities m m v0 v1 = Ok (v1, v0).
Proof.
  intros Hm.
  assert (Hsum : (m + m)%Qc <> 0%Qc).
  { intros H. apply Hm.
    replace (m + m)%Qc with (Simulation.two * m)%Qc in H by (rewrite two_eq; ring).
    apply Qcmult_integral in H. destruct H as [H|H]; [|exact H].
    apply (f_equal this) in H. discriminate H. }
  rewrite elastic_velocities_Ok by exact Hsum.
  f_equal. f_equal; rewrite two_eq; field; exact Hsum.
Qed.

Lemma elastic_collision_equal_masses_witness :
  Simulation.elastic_velocities (Fraction.of_int 3) (Fraction.of_int 3)
    (Fraction.of_int 0) (Fraction.of_int (-5))
  = Ok (Fraction.of_int (-5), Fraction.of_int 0).
Proof.
  apply (elastic_collision_equal_masses (Fraction.of_int 3)).
  intros H. apply (f_equal this) in H. vm_compute in H. discriminate H.
Defined.

(** ** Linear arithmetic on fractions *)

Lemma Qc_Qeq (a b : Qc) : a = b -> (this a == this b)%Q.
Proof. now intros ->. Qed.

(** Moves a goal on [Qc] to [Q], where [lra] and [nra] work. *)
Ltac qc_to_q :=
  repeat match goal with
         | H : @eq Qc _ _ |- _ => apply Qc_Qeq in H
         end;
  unfold Qcle, Qclt, Qcminus, Qcplus, Qcopp, Qcmult in *;
  cbn [this Q2Qc] in *;
  rewrite ?Qred_correct in *.

Lemma truediv_inv (a b c : Qc) :
  Fraction.truediv a b = Ok c -> b <> 0%Qc /\ c = (a / b)%Qc.
Proof.
  unfold Fraction.truediv.
  destruct (Qc_eq_dec b (Fraction.of_int 0)) as [|Hb]; [discriminate|].
  intros H. injection H as <-. now split.
Qed.

Lemma truediv_zero (a b : Qc) :
  b = 0%Qc -> Fraction.truediv a b = Raise ZeroDivisionError.
Proof.
  intros ->. unfold Fraction.truediv.
  destruct (Qc_eq_dec 0%Qc (Fraction.of_int 0)) as [|H]; [reflexivity|].
  now contradiction H.
Qed.

(** ** Walls, again *)

Lemma handle_collision_blocks_of_resolve (c : collision) (s r s' : Simulation.t) :
  Simulation.resolve c s = Ok r ->
  Simulation.handle_collision c s = Ok s' ->
  Simulation.block_0 s' = Simulation.block_0 r
  /\ Simulation.block_1 s' = Simulation.block_1 r.
Proof.
  intros Hr H. apply handle_collision_Ok in H.
  destruct H as (r' & Hr' & e & m & _ & _ & ->).
  rewrite Hr in Hr'. injection Hr' as <-. now split.
Qed.

(** X8: after a wall collision is resolved the block moves away from the
    wall, so the detector does not report the same wall again. *)
Theorem wall_collision_not_redetected (s s' : Simulation.t) :
  (wall_0_condition s -> Simulation.handle_collision wall_0 s = Ok s' ->
   (0 < Block2D.v (Simulation.block_0 s'))%Qc
   /\ Simulation.detect_collisions s' <> Some wall_0)
  /\ (wall_1_condition s -> Simulation.handle_collision wall_1 s = Ok s' ->
      (0 < Block2D.v (Simulation.block_1 s'))%Qc
      /\ Simulation.detect_collisions s' <> Some wall_1).
Proof.
  split; intros [_ Hv] H.
  - destruct (handle_collision_blocks_of_resolve wall_0 s _ s' eq_refl H) as [H0 _].
    assert (Hpos : (0 < Block2D.v (Simulation.block_0 s'))%Qc).
    { rewrite H0. cbn. qc_to_q. lra. }
    split; [exact Hpos|].
    unfold Simulation.detect_collisions. cbv zeta.
    pose proof (wall_0_test s') as Ht.
    destruct (Fraction.leb (Block2D.x (Simulation.block_0 s')) _ && _).
    + exfalso. destruct (proj1 Ht eq_refl) as [_ Hneg].
      qc_to_q. lra.
    + destruct (_ && _); [discriminate|]. destruct (_ && _); discriminate.
  - destruct (handle_collision_blocks_of_resolve wall_1 s _ s' eq_refl H) as [_ H1].
    assert (Hpos : (0 < Block2D.v (Simulation.block_1 s'))%Qc).
    { rewrite H1. cbn. qc_to_q. lra. }
    split; [exact Hpos|].
    unfold Simulation.detect_collisions. cbv zeta.
    pose proof (wall_1_test s') as Ht.
    destruct (Fraction.leb (Block2D.x (Simulation.block_0 s')) _ && _);
      [discriminate|].
    destruct (Fraction.leb (Block2D.x (Simulation.block_1 s')) _ && _).
    + exfalso. destruct (proj1 Ht eq_refl) as [_ Hneg].
      qc_to_q. lra.
    + destruct (_ && _); discriminate.
Qed.

(** X9: a wall collision keeps the exact kinetic energy of the blocks and
    takes twice the momentum of the block that hits the wall. *)
Theorem wall_collision_energy_momentum (s : Simulation.t) :
  (exists s',
      Simulation.handle_collision wall_0 s = Ok s'
      /\ Simulation.energy_of (Simulation.block_0 s') (Simulation.block_1 s')
         = Simulation.energy_of (Simulation.block_0 s) (Simulation.block_1 s)
      /\ Simulation.momentum_of (Simulation.block_0 s') (Simulation.block_1 s')
         = (Simulation.momentum_of (Simulation.block_0 s) (Simulation.block_1 s)
            - Simulation.two * (Block2D.mass (Simulation.block_0 s)
                                * Block2D.v (Simulation.block_0 s)))%Qc)
  /\ (exists s',
         Simulation.handle_collision wall_1 s = Ok s'
         /\ Simulation.energy_of (Simulation.block_0 s') (Simulation.block_1 s')
            = Simulation.energy_of (Simulation.block_0 s) (Simulation.block_1 s)
         /\ Simulation.momentum_of (Simulation.block_0 s') (Simulation.block_1 s')
            = (Simulation.momentum_of (Simulation.block_0 s) (Simulation.block_1 s)
               - Simulation.two * (Block2D.mass (Simulation.block_1 s)
                                   * Block2D.v (Simulation.block_1 s)))%Qc).
Proof.
  split.
  - unfold Simulation.handle_collision. cbn [Simulation.resolve bind].
    match goal with
    | |- context [Simulation._total_energy ?a ?b] =>
        destruct (total_energy_Ok a b) as [e ->];
        destruct (total_momentum_Ok a b) as [m ->]
    end.
    cbn [bind]. eexists. split; [reflexivity|].
    unfold Simulation.energy_of, Simulation.momentum_of. cbn.
    rewrite two_eq. split; field.
    intros H; apply (f_equal this) in H; discriminate H.
  - unfold Simulation.handle_collision. cbn [Simulation.resolve bind].
    match goal with
    | |- context [Simulation._total_energy ?a ?b] =>
        destruct (total_energy_Ok a b) as [e ->];
        destruct (total_momentum_Ok a b) as [m ->]
    end.
    cbn [bind]. eexists. split; [reflexivity|].
    unfold Simulation.energy_of, Simulation.momentum_of. cbn.
    rewrite two_eq. split; field.
    intros H; apply (f_equal this) in H; discriminate H.
Qed.

Lemma wall_collision_not_redetected_witness :
  exists s',
    Simulation.handle_collision wall_0 at_wall_0 = Ok s'
    /\ (0 < Block2D.v (Simulation.block_0 s'))%Qc
    /\ Simulation.detect_collisions s' <> Some wall_0.
Proof.
  destruct (handle_collision_total wall_0 at_wall_0 at_wall_0_well_formed)
    as (s' & H & _).
  exists s'. split; [exact H|].
  apply (proj1 (wall_collision_not_redetected at_wall_0 s')); [|exact H].
  split; by_computation.
Defined.

(** ** Collisions of the blocks, again *)

(** X10: resolving a collision of the blocks raises [ZeroDivisionError]
    when the masses cancel, [ValueError] when they do not and the cap is
    below 1, and returns otherwise. *)
Theorem handle_collision_blocks_errors (s : Simulation.t) :
  let total_mass :=
    (Block2D.mass (Simulation.block_0 s) + Block2D.mass (Simulation.block_1 s))%Qc in
  (total_mass = 0%Qc ->
   Simulation.handle_collision blocks s = Raise ZeroDivisionError)
  /\ (total_mass <> 0%Qc -> Simulation.simplify_denominator s < 1 ->
      Simulation.handle_collision blocks s = Raise ValueError)
  /\ (total_mass <> 0%Qc -> 1 <= Simulation.simplify_denominator s ->
      exists s', Simulation.handle_collision blocks s = Ok s').
Proof.
  cbv zeta. split; [|split].
  - intros H0. unfold Simulation.handle_collision. cbn [Simulation.resolve].
    unfold Simulation.elastic_velocities. now rewrite truediv_zero.
  - intros Hm Hd. unfold Simulation.handle_collision. cbn [Simulation.resolve].
    rewrite elastic_velocities_Ok by exact Hm. cbn [bind].
    now rewrite limit_denominator_illegal_bound.
  - intros Hm Hd.
    destruct (handle_collision_total blocks s (conj Hm Hd)) as (s' & H & _).
    now exists s'.
Qed.

Lemma handle_collision_blocks_errors_witness :
  exists s',
    Simulation.handle_collision blocks initial_state = Ok s'.
Proof.
  apply (proj2 (proj2 (handle_collision_blocks_errors initial_state))).
  - exact (proj1 initial_state_well_formed).
  - by_computation.
Defined.

(** What a resolved collision of the blocks did, step by step. *)
Lemma resolve_blocks_inv (s r : Simulation.t) :
  Simulation.resolve blocks s = Ok r ->
  let m1 := Block2D.mass (Simulation.block_0 s) in
  let m2 := Block2D.mass (Simulation.block_1 s) in
  let min_distance :=
    ((Block2D.size (Simulation.block_0 s) + Block2D.size (Simulation.block_1 s))
     / Simulation.two)%Qc in
  let actual_distance :=
    (Block2D.x (Simulation.block_1 s) - Block2D.x (Simulation.block_0 s))%Qc in
  (m1 + m2)%Qc <> 0%Qc
  /\ ((Fraction.ltb actual_distance min_distance = false
       /\ Block2D.x (Simulation.block_0 r) = Block2D.x (Simulation.block_0 s)
       /\ Block2D.x (Simulation.block_1 r) = Block2D.x (Simulation.block_1 s))
      \/ (Fraction.ltb actual_distance min_distance = true
          /\ exists pos_adj1 pos_adj2,
              Fraction.limit_denominator
                ((min_distance - actual_distance) * m2 / (m1 + m2))%Qc
                (Simulation.simplify_denominator s) = Ok pos_adj1
              /\ Fraction.limit_denominator
                   ((min_distance - actual_distance) * m1 / (m1 + m2))%Qc
                   (Simulation.simplify_denominator s) = Ok pos_adj2
              /\ Block2D.x (Simulation.block_0 r)
                 = (Block2D.x (Simulation.block_0 s) - pos_adj1)%Qc
              /\ Block2D.x (Simulation.block_1 r)
                 = (Block2D.x (Simulation.block_1 s) + pos_adj2)%Qc)).
Proof.
  cbn. intros H. apply bind_Ok in H. destruct H as ([nv1 nv2] & He & H).
  unfold Simulation.elastic_velocities in He. apply bind_Ok in He.
  destruct He as (a & Ha & _). apply truediv_inv in Ha. destruct Ha as [Hm _].
  split; [exact Hm|].
  inv_bind.
  match goal with
  | H : (if ?b then _ else _) = Ok _ |- _ => destruct b eqn:Hlt
  end.
  - right. split; [reflexivity|]. inv_bind.
    repeat match goal with
           | H : Fraction.truediv _ _ = Ok _ |- _ =>
               apply truediv_inv in H; destruct H as [_ ->]
           end.
    subst. cbn. eauto 6.
  - left. inv_bind. subst. cbn. repeat split.
Qed.

Lemma corrected_gap (x0 x1 md e1 e2 a1 a2 tol : Qc) :
  (e1 + e2 = md - (x1 - x0))%Qc ->
  (e1 - a1 <= tol)%Qc -> (a1 - e1 <= tol)%Qc ->
  (e2 - a2 <= tol)%Qc -> (a2 - e2 <= tol)%Qc ->
  (x1 + a2 - (x0 - a1) - md <= tol + tol)%Qc
  /\ (md - (x1 + a2 - (x0 - a1)) <= tol + tol)%Qc.
Proof. intros. qc_to_q. split; lra. Qed.

(** X11: a resolved collision of the blocks leaves their positions alone
    when they only touch; when they overlap it moves them apart so that the
    distance of their centres is the touching distance up to
    [1 / simplify_denominator] (two roundings). *)
Theorem blocks_overlap_correction (s s' : Simulation.t) :
  Simulation.handle_collision blocks s = Ok s' ->
  let min_distance :=
    ((Block2D.size (Simulation.block_0 s) + Block2D.size (Simulation.block_1 s))
     / Simulation.two)%Qc in
  let actual_distance :=
    (Block2D.x (Simulation.block_1 s) - Block2D.x (Simulation.block_0 s))%Qc in
  let new_distance :=
    (Block2D.x (Simulation.block_1 s') - Block2D.x (Simulation.block_0 s'))%Qc in
  let tol := tolerance (Simulation.simplify_denominator s) in
  ((min_distance <= actual_distance)%Qc ->
   Block2D.x (Simulation.block_0 s') = Block2D.x (Simulation.block_0 s)
   /\ Block2D.x (Simulation.block_1 s') = Block2D.x (Simulation.block_1 s))
  /\ ((actual_distance < min_distance)%Qc ->
      (new_distance - min_distance <= tol + tol)%Qc
      /\ (min_distance - new_distance <= tol + tol)%Qc).
Proof.
  intros H. cbv zeta.
  pose proof H as H'. apply handle_collision_Ok in H'.
  destruct H' as (r & Hr & _).
  destruct (handle_collision_blocks_of_resolve blocks s r s' Hr H) as [-> ->].
  apply resolve_blocks_inv in Hr. cbv zeta in Hr.
  destruct Hr as (Hm & [(Hlt & -> & ->)|(Hlt & a1 & a2 & H1 & H2 & -> & ->)]).
  - split; [now split|].
    intros Hc. apply ltb_lt in Hc. rewrite Hc in Hlt. discriminate Hlt.
  - split.
    + intros Hc. apply ltb_lt in Hlt. exfalso. qc_to_q. lra.
    + intros _.
      apply limit_denominator_error in H1, H2.
      destruct H1 as [H1a H1b], H2 as [H2a H2b].
      refine (corrected_gap _ _ _ _ _ _ _ _ _ H1a H1b H2a H2b).
      field. split; [|exact Hm].
      intros E. apply (f_equal this) in E. vm_compute in E. discriminate E.
Qed.

Lemma blocks_overlap_correction_witness :
  exists s',
    Simulation.handle_collision blocks overlapping = Ok s'
    /\ (Block2D.x (Simulation.block_1 s') - Block2D.x (Simulation.block_0 s')
        - (Block2D.size (Simulation.block_0 overlapping)
           + Block2D.size (Simulation.block_1 overlapping)) / Simulation.two
        <= tolerance (10 ^ 9) + tolerance (10 ^ 9))%Qc.
Proof.
  destruct (handle_collision_total blocks overlapping overlapping_well_formed)
    as (s' & H & _).
  exists s'. split; [exact H|].
  apply (proj2 (blocks_overlap_correction overlapping s' H)).
  by_computation.
Defined.

Lemma rounded_momentum (m0 m1 v0 v1 a b w0 w1 tol : Qc) :
  (0 < m0)%Qc -> (0 < m1)%Qc ->
  (m0 * a + m1 * b = m0 * v0 + m1 * v1)%Qc ->
  (a - w0 <= tol)%Qc -> (w0 - a <= tol)%Qc ->
  (b - w1 <= tol)%Qc -> (w1 - b <= tol)%Qc ->
  (m0 * w0 + m1 * w1 - (m0 * v0 + m1 * v1) <= (m0 + m1) * tol)%Qc
  /\ (m0 * v0 + m1 * v1 - (m0 * w0 + m1 * w1) <= (m0 + m1) * tol)%Qc.
Proof. intros. qc_to_q. split; nra. Qed.

(** X12: a resolved collision of two blocks of positive masses changes the
    exact momentum of the blocks by at most [(m0 + m1) / (2 * cap)], the
    rounding of the two new velocities. *)
Theorem blocks_collision_momentum_drift (s s' : Simulation.t) :
  masses_positive s ->
  Simulation.handle_collision blocks s = Ok s' ->
  let before := Simulation.momentum_of (Simulation.block_0 s) (Simulation.block_1 s) in
  let after := Simulation.momentum_of (Simulation.block_0 s') (Simulation.block_1 s') in
  let bound :=
    ((Block2D.mass (Simulation.block_0 s) + Block2D.mass (Simulation.block_1 s))
     * tolerance (Simulation.simplify_denominator s))%Qc in
  (after - before <= bound)%Qc /\ (before - after <= bound)%Qc.
Proof.
  intros [Hp0 Hp1] H. cbv zeta.
  pose proof H as H'. apply handle_collision_Ok in H'.
  destruct H' as (r & Hr & _).
  destruct (handle_collision_blocks_of_resolve blocks s r s' Hr H) as [-> ->].
  destruct (resolve_frame blocks s r Hr) as (_ & _ & _ & _ & _ & Hm0 & Hm1).
  destruct (resolve_blocks_velocities s r Hr) as (a & b & He & Ha & Hb).
  assert (Hsum : (Block2D.mass (Simulation.block_0 s)
                  + Block2D.mass (Simulation.block_1 s))%Qc <> 0%Qc).
  { apply not_eq_sym, Qclt_not_eq, Qcplus_pos; assumption. }
  rewrite elastic_velocities_Ok in He by exact Hsum. injection He as Ea Eb.
  unfold Simulation.momentum_of. rewrite Hm0, Hm1.
  apply limit_denominator_error in Ha, Hb.
  destruct Ha as [Ha1 Ha2], Hb as [Hb1 Hb2].
  refine (rounded_momentum _ _ _ _ _ _ _ _ _ Hp0 Hp1 _ Ha1 Ha2 Hb1 Hb2).
  subst a b. rewrite two_eq. field. exact Hsum.
Qed.

Lemma initial_masses_positive : masses_positive initial_state.
Proof. split; reflexivity. Qed.

Lemma blocks_collision_momentum_drift_witness :
  exists s',
    Simulation.handle_collision blocks initial_state = Ok s'
    /\ (Simulation.momentum_of (Simulation.block_0 s') (Simulation.block_1 s')
        - Simulation.momentum_of (Simulation.block_0 initial_state)
                                 (Simulation.block_1 initial_state)
        <= (Block2D.mass (Simulation.block_0 initial_state)
            + Block2D.mass (Simulation.block_1 initial_state))
           * tolerance (Simulation.simplify_denominator initial_state))%Qc.
Proof.
  destruct (handle_collision_total blocks initial_state initial_state_well_formed)
    as (s' & H & _).
  exists s'. split; [exact H|].
  exact (proj1 (blocks_collision_momentum_drift initial_state s'
                  initial_masses_positive H)).
Defined.

(** ** What a step keeps *)

Lemma constants_kept_refl (s : Simulation.t) : constants_kept s s.
Proof. unfold constants_kept. repeat split. Qed.

Lemma constants_kept_trans (s1 s2 s3 : Simulation.t) :
  constants_kept s1 s2 -> constants_kept s2 s3 -> constants_kept s1 s3.
Proof.
  unfold constants_kept.
  intros (A1 & A2 & A3 & A4 & A5 & A6 & A7 & A8)
         (B1 & B2 & B3 & B4 & B5 & B6 & B7 & B8).
  repeat split; congruence.
Qed.

Lemma tuning_kept_refl (s : Simulation.t) : tuning_kept s s.
Proof. unfold tuning_kept. repeat split. Qed.

Lemma tuning_kept_trans (s1 s2 s3 : Simulation.t) :
  tuning_kept s1 s2 -> tuning_kept s2 s3 -> tuning_kept s1 s3.
Proof.
  unfold tuning_kept. intros (A1 & A2 & A3) (B1 & B2 & B3).
  repeat split; congruence.
Qed.

Lemma resolve_kept (c : collision) (s r : Simulation.t) :
  Simulation.resolve c s = Ok r ->
  constants_kept s r /\ tuning_kept s r
  /\ Simulation.time_step r = Simulation.time_step s
  /\ Simulation.simplify_counter r = Simulation.simplify_counter s.
Proof.
  unfold constants_kept, tuning_kept. destruct c; cbn; intros H.
  - injection H as <-. cbn. repeat split.
  - injection H as <-. cbn. repeat split.
  - inv_bind.
    match goal with
    | H : (if ?b then _ else _) = Ok _ |- _ => destruct b
    end; inv_bind; subst; cbn; repeat split.
Qed.

Lemma handle_collision_kept (c : collision) (s s' : Simulation.t) :
  Simulation.handle_collision c s = Ok s' ->
  constants_kept s s' /\ tuning_kept s s'
  /\ Simulation.time_step s' = Simulation.time_step s
  /\ Simulation.simplify_counter s' = Simulation.simplify_counter s.
Proof.
  intros H. apply handle_collision_Ok in H.
  destruct H as (r & Hr & e & m & _ & _ & ->).
  exact (resolve_kept c s r Hr).
Qed.

Lemma simplify_fractions_kept (s s' : Simulation.t) :
  Simulation.simplify_fractions s = Ok s' ->
  constants_kept s s' /\ tuning_kept s s'
  /\ Fraction.limit_denominator (Simulation.time_step s)
       (Simulation.simplify_denominator s) = Ok (Simulation.time_step s')
  /\ Simulation.simplify_counter s' = Simulation.simplify_counter s.
Proof.
  unfold Simulation.simplify_fractions, Block2D.simplify,
    constants_kept, tuning_kept.
  intros H. inv_bind. subst. cbn. repeat split. assumption.
Qed.

(** One step: the constants and the tunables stay; the time step stays or
    is capped; the simplification counter stays, advances by one below the
    interval, or falls back to 0. *)
Lemma update_kept (s s' : Simulation.t) :
  Simulation.update s = Ok s' ->
  constants_kept s s' /\ tuning_kept s s'
  /\ (Simulation.time_step s' = Simulation.time_step s
      \/ Fraction.limit_denominator (Simulation.time_step s)
           (Simulation.simplify_denominator s) = Ok (Simulation.time_step s'))
  /\ (Simulation.simplify_counter s' = Simulation.simplify_counter s
      \/ (Simulation.simplify_counter s' = Simulation.simplify_counter s + 1
          /\ Simulation.simplify_counter s' < Simulation.simplify_interval s)
      \/ Simulation.simplify_counter s' = 0).
Proof.
  unfold Simulation.update.
  destruct (Simulation.paused s).
  { intros H. injection H as <-.
    split; [apply constants_kept_refl|]. split; [apply tuning_kept_refl|].
    split; left; reflexivity. }
  destruct (Simulation.detect_collisions s) as [c|].
  { intros H. destruct (handle_collision_kept c s s' H) as (Hc & Ht & Hts & Hn).
    split; [exact Hc|]. split; [exact Ht|]. split; left; assumption. }
  intros H. apply bind_Ok in H. destruct H as (s1 & H1 & H).
  assert (Hs1 : constants_kept s s1 /\ tuning_kept s s1
                /\ Simulation.time_step s1 = Simulation.time_step s
                /\ Simulation.simplify_counter s1 = Simulation.simplify_counter s).
  { destruct (Simulation.detect_collisions (Simulation.move s)) as [c|].
    - exact (handle_collision_kept c _ s1 H1).
    - injection H1 as <-. unfold constants_kept, tuning_kept. cbn. repeat split. }
  destruct Hs1 as (Hc1 & Ht1 & Hts1 & Hn1).
  cbv zeta in H.
  destruct (Z.leb_spec
              (Simulation.simplify_interval
                 (Simulation.set_simplify_counter s1 (Simulation.simplify_counter s1 + 1)))
              (Simulation.simplify_counter
                 (Simulation.set_simplify_counter s1 (Simulation.simplify_counter s1 + 1))))
    as [Hge|Hlt].
  - apply bind_Ok in H. destruct H as (s2 & H2 & H). injection H as <-.
    destruct (simplify_fractions_kept _ s2 H2) as (Hc2 & Ht2 & Hts2 & _).
    cbn in Hts2. rewrite Hts1 in Hts2.
    destruct Ht1 as (T1 & T2 & T3). rewrite T2 in Hts2.
    split; [|split; [|split]].
    + apply (constants_kept_trans s s1); [exact Hc1|].
      destruct Hc2 as (C1 & C2 & C3 & C4 & C5 & C6 & C7 & C8).
      unfold constants_kept. cbn in *. repeat split; assumption.
    + apply (tuning_kept_trans s s1); [now repeat split|].
      destruct Ht2 as (U1 & U2 & U3). unfold tuning_kept. cbn in *.
      repeat split; assumption.
    + right. cbn. exact Hts2.
    + right. right. reflexivity.
  - injection H as <-. cbn in Hlt |- *.
    destruct Hc1 as (C1 & C2 & C3 & C4 & C5 & C6 & C7 & C8).
    split; [|split; [|split]].
    + unfold constants_kept. cbn. repeat split; assumption.
    + exact Ht1.
    + left. exact Hts1.
    + right. left. rewrite Hn1. cbn. rewrite C6 in Hlt. rewrite Hn1 in Hlt. lia.
Qed.

(** ** The tunables *)

Lemma speed_after_increase (s : Simulation.t) :
  Simulation.simulation_speed (Simulation.adjust_speed s true)
  = Z.min 100000 (Simulation.simulation_speed s * 2).
Proof. reflexivity. Qed.

Lemma speed_after_decrease (s : Simulation.t) :
  Simulation.simulation_speed (Simulation.adjust_speed s false)
  = Z.max 1 (Simulation.simulation_speed s / 2).
Proof. reflexivity. Qed.

(** X13: [adjust_speed] assigns nothing but [simulation_speed]; an increase
    never exceeds 100000, a decrease never goes below 1, and a speed within
    [1, 100000] stays there. *)
Theorem adjust_speed_range (s : Simulation.t) (increase : bool) :
  Simulation.adjust_speed s increase
  = Simulation.set_simulation_speed s
      (Simulation.simulation_speed (Simulation.adjust_speed s increase))
  /\ Simulation.simulation_speed (Simulation.adjust_speed s true) <= 100000
  /\ 1 <= Simulation.simulation_speed (Simulation.adjust_speed s false)
  /\ (1 <= Simulation.simulation_speed s <= 100000 ->
      1 <= Simulation.simulation_speed (Simulation.adjust_speed s increase)
      <= 100000).
Proof.
  split; [destruct increase; reflexivity|].
  split; [cbn; lia|]. split; [cbn; lia|].
  intros H. destruct increase; cbn.
  - lia.
  - assert (Simulation.simulation_speed s / 2 <= Simulation.simulation_speed s)
      by (apply Z.div_le_upper_bound; lia).
    lia.
Qed.

Lemma adjust_speed_range_witness :
  1 <= Simulation.simulation_speed (Simulation.adjust_speed initial_state true)
  <= 100000.
Proof.
  apply (adjust_speed_range initial_state true). by_computation.
Defined.

(** X14: seventeen or more speed increases in a row from a speed within
    [1, 100000] end at 100000, and as many decreases end at 1. *)
Theorem adjust_speed_saturates (s : Simulation.t) (n : nat) :
  1 <= Simulation.simulation_speed s <= 100000 ->
  (17 <= n)%nat ->
  Simulation.simulation_speed
    (Nat.iter n (fun s' => Simulation.adjust_speed s' true) s) = 100000
  /\ Simulation.simulation_speed
       (Nat.iter n (fun s' => Simulation.adjust_speed s' false) s) = 1.
Proof.
  intros Hs Hn.
  assert (Hup : forall k,
             Z.min 100000 (2 ^ Z.of_nat k)
             <= Simulation.simulation_speed
                  (Nat.iter k (fun s' => Simulation.adjust_speed s' true) s)
             <= 100000).
  { induction k as [|k IH].
    - cbn. lia.
    - rewrite Nat2Z.inj_succ, Z.pow_succ_r, Nat.iter_succ by lia.
      rewrite speed_after_increase. lia. }
  assert (Hdown : forall k,
             1 <= Simulation.simulation_speed
                    (Nat.iter k (fun s' => Simulation.adjust_speed s' false) s)
             /\ Simulation.simulation_speed
                  (Nat.iter k (fun s' => Simulation.adjust_speed s' false) s)
                * 2 ^ Z.of_nat k
                <= Z.max (2 ^ Z.of_nat k) 100000).
  { induction k as [|k IH].
    - cbn. lia.
    - rewrite Nat2Z.inj_succ, Z.pow_succ_r, Nat.iter_succ by lia.
      rewrite speed_after_decrease.
      set (v := Simulation.simulation_speed
                  (Nat.iter k (fun s' => Simulation.adjust_speed s' false) s)) in *.
      assert (Hp : 0 < 2 ^ Z.of_nat k) by (apply Z.pow_pos_nonneg; lia).
      assert (Hv : 2 * (v / 2) <= v) by (apply Z.mul_div_le; lia).
      destruct IH as [IH1 IH2]. split; [lia|].
      destruct (Z.max_spec 1 (v / 2)) as [[_ ->]|[_ ->]]; nia. }
  assert (Hpow : 100000 < 2 ^ Z.of_nat n).
  { apply Z.lt_le_trans with (2 ^ 17); [reflexivity|].
    apply Z.pow_le_mono_r; lia. }
  split.
  - specialize (Hup n). lia.
  - specialize (Hdown n). nia.
Qed.

Lemma adjust_speed_saturates_witness :
  Simulation.simulation_speed
    (Nat.iter 17 (fun s' => Simulation.adjust_speed s' true) initial_state)
  = 100000
  /\ Simulation.simulation_speed
       (Nat.iter 17 (fun s' => Simulation.adjust_speed s' false) initial_state)
     = 1.
Proof.
  apply (adjust_speed_saturates initial_state 17); [by_computation|lia].
Defined.

Lemma adjust_precision_Ok (s : Simulation.t) (increase : bool) :
  1 <= Simulation.simplify_denominator s ->
  exists s',
    Simulation.adjust_precision s increase = Ok s'
    /\ Simulation.simplify_denominator s'
       = (if increase
          then Z.min (10 ^ 12) (Simulation.simplify_denominator s * 10)
          else Z.max (10 ^ 3) (Simulation.simplify_denominator s / 10))
    /\ constants_kept s s'
    /\ Simulation.simulation_speed s' = Simulation.simulation_speed s
    /\ Simulation.paused s' = Simulation.paused s
    /\ Simulation.simplify_counter s' = Simulation.simplify_counter s
    /\ Fraction.limit_denominator (Simulation.time_step s)
         (Simulation.simplify_denominator s') = Ok (Simulation.time_step s').
Proof.
  intros Hd. unfold Simulation.adjust_precision.
  set (s1 := if increase then _ else _).
  assert (Hs1 : Simulation.simplify_denominator s1
                = (if increase
                   then Z.min (10 ^ 12) (Simulation.simplify_denominator s * 10)
                   else Z.max (10 ^ 3) (Simulation.simplify_denominator s / 10)))
    by (subst s1; destruct increase; reflexivity).
  assert (H1 : 1 <= Simulation.simplify_denominator s1)
    by (rewrite Hs1; destruct increase; lia).
  destruct (simplify_fractions_Ok s1 H1) as [s' H].
  exists s'. split; [exact H|].
  destruct (simplify_fractions_kept s1 s' H) as (Hc & (T1 & T2 & T3) & Hts & Hn).
  rewrite T2, Hs1.
  assert (E : constants_kept s s1 /\ Simulation.simulation_speed s1 = Simulation.simulation_speed s
              /\ Simulation.paused s1 = Simulation.paused s
              /\ Simulation.simplify_counter s1 = Simulation.simplify_counter s
              /\ Simulation.time_step s1 = Simulation.time_step s).
  { subst s1. unfold constants_kept. destruct increase; cbn; repeat split. }
  destruct E as (E1 & E2 & E3 & E4 & E5).
  split; [reflexivity|]. split; [exact (constants_kept_trans s s1 s' E1 Hc)|].
  rewrite T1, T3, Hn. repeat split; try assumption.
  rewrite <- E5, <- Hs1. exact Hts.
Qed.

(** X15: [adjust_precision(False)] never raises and sets the cap to
    [max(10**3, cap // 10)]; from a cap within [10**3, 10**12] a call in
    either direction returns, leaves the cap within these bounds, and caps
    the time step at once with the new cap. *)
Theorem adjust_precision_range (s : Simulation.t) :
  (exists s',
      Simulation.adjust_precision s false = Ok s'
      /\ Simulation.simplify_denominator s'
         = Z.max (10 ^ 3) (Simulation.simplify_denominator s / 10))
  /\ (forall increase,
         10 ^ 3 <= Simulation.simplify_denominator s <= 10 ^ 12 ->
         exists s',
           Simulation.adjust_precision s increase = Ok s'
           /\ 10 ^ 3 <= Simulation.simplify_denominator s' <= 10 ^ 12
           /\ Fraction.denominator (Simulation.time_step s')
              <= Simulation.simplify_denominator s').
Proof.
  split.
  - unfold Simulation.adjust_precision.
    set (s1 := Simulation.set_simplify_denominator s _).
    assert (H1 : 1 <= Simulation.simplify_denominator s1) by (subst s1; cbn; lia).
    destruct (simplify_fractions_Ok s1 H1) as [s' H].
    exists s'. split; [exact H|].
    destruct (simplify_fractions_kept s1 s' H) as (_ & (_ & T2 & _) & _).
    rewrite T2. reflexivity.
  - intros increase Hr.
    destruct (adjust_precision_Ok s increase) as (s' & H & Hd & _ & _ & _ & _ & Hts);
      [lia|].
    exists s'. split; [exact H|]. split.
    + rewrite Hd. destruct increase.
      * lia.
      * assert (Simulation.simplify_denominator s / 10 <= Simulation.simplify_denominator s)
          by (apply Z.div_le_upper_bound; lia).
        lia.
    + exact (limit_denominator_capped _ _ _ Hts).
Qed.

Lemma adjust_precision_range_witness :
  exists s',
    Simulation.adjust_precision initial_state true = Ok s'
    /\ 10 ^ 3 <= Simulation.simplify_denominator s' <= 10 ^ 12
    /\ Fraction.denominator (Simulation.time_step s')
       <= Simulation.simplify_denominator s'.
Proof.
  apply (proj2 (adjust_precision_range initial_state) true). by_computation.
Defined.

(** X16: nine or more precision increases in a row from a cap within
    [10**3, 10**12] raise nothing and end at [10**12]; as many decreases end
    at [10**3]. *)
Theorem adjust_precision_saturates (n : nat) (s : Simulation.t) :
  10 ^ 3 <= Simulation.simplify_denominator s <= 10 ^ 12 ->
  (9 <= n)%nat ->
  (exists s', run (repeat (AdjustPrecision true) n) s = Ok s'
              /\ Simulation.simplify_denominator s' = 10 ^ 12)
  /\ (exists s', run (repeat (AdjustPrecision false) n) s = Ok s'
                 /\ Simulation.simplify_denominator s' = 10 ^ 3).
Proof.
  intros Hs Hn.
  assert (Hpow : 10 ^ 9 <= 10 ^ Z.of_nat n) by (apply Z.pow_le_mono_r; lia).
  split.
  - assert (Hup : forall k t,
               10 ^ 3 <= Simulation.simplify_denominator t <= 10 ^ 12 ->
               10 ^ 12 <= Simulation.simplify_denominator t * 10 ^ Z.of_nat k ->
               exists t', run (repeat (AdjustPrecision true) k) t = Ok t'
                          /\ Simulation.simplify_denominator t' = 10 ^ 12).
    { induction k as [|k IH]; intros t Ht Hk.
      - exists t. split; [reflexivity|]. cbn in Hk. lia.
      - cbn [repeat run perform].
        destruct (adjust_precision_Ok t true) as (t1 & -> & Hd & _); [lia|].
        cbn [bind]. apply IH.
        + rewrite Hd. lia.
        + rewrite Hd. rewrite Nat2Z.inj_succ, Z.pow_succ_r in Hk by lia.
          assert (0 < 10 ^ Z.of_nat k) by (apply Z.pow_pos_nonneg; lia).
          destruct (Z.min_spec (10 ^ 12) (Simulation.simplify_denominator t * 10))
            as [[_ ->]|[_ ->]]; nia. }
    apply Hup; [exact Hs|]. nia.
  - assert (Hdown : forall k t,
               10 ^ 3 <= Simulation.simplify_denominator t <= 10 ^ 12 ->
               Simulation.simplify_denominator t <= 10 ^ 3 * 10 ^ Z.of_nat k ->
               exists t', run (repeat (AdjustPrecision false) k) t = Ok t'
                          /\ Simulation.simplify_denominator t' = 10 ^ 3).
    { induction k as [|k IH]; intros t Ht Hk.
      - exists t. split; [reflexivity|]. cbn in Hk. lia.
      - cbn [repeat run perform].
        destruct (adjust_precision_Ok t false) as (t1 & -> & Hd & _); [lia|].
        cbn [bind].
        rewrite Nat2Z.inj_succ, Z.pow_succ_r in Hk by lia.
        assert (Hdiv : Simulation.simplify_denominator t / 10
                       <= 10 ^ 3 * 10 ^ Z.of_nat k)
          by (apply Z.div_le_upper_bound; lia).
        assert (Hdiv2 : Simulation.simplify_denominator t / 10
                        <= Simulation.simplify_denominator t)
          by (apply Z.div_le_upper_bound; lia).
        assert (0 < 10 ^ Z.of_nat k) by (apply Z.pow_pos_nonneg; lia).
        apply IH; rewrite Hd; lia. }
    apply Hdown; [exact Hs|]. nia.
Qed.

Lemma adjust_precision_saturates_witness :
  (exists s', run (repeat (AdjustPrecision true) 9) initial_state = Ok s'
              /\ Simulation.simplify_denominator s' = 10 ^ 12)
  /\ (exists s', run (repeat (AdjustPrecision false) 9) initial_state = Ok s'
                 /\ Simulation.simplify_denominator s' = 10 ^ 3).
Proof.
  apply (adjust_precision_saturates 9 initial_state); [by_computation|lia].
Defined.

(** ** Invariants along a run *)

Lemma adjust_precision_kept (s s' : Simulation.t) (increase : bool) :
  Simulation.adjust_precision s increase = Ok s' ->
  constants_kept s s'
  /\ Simulation.simulation_speed s' = Simulation.simulation_speed s
  /\ Simulation.paused s' = Simulation.paused s
  /\ Simulation.simplify_counter s' = Simulation.simplify_counter s
  /\ Simulation.simplify_denominator s'
     = (if increase
        then Z.min (10 ^ 12) (Simulation.simplify_denominator s * 10)
        else Z.max (10 ^ 3) (Simulation.simplify_denominator s / 10))
  /\ Fraction.limit_denominator (Simulation.time_step s)
       (Simulation.simplify_denominator s') = Ok (Simulation.time_step s').
Proof.
  unfold Simulation.adjust_precision. intros H.
  apply simplify_fractions_kept in H.
  destruct H as (Hc & (T1 & T2 & T3) & Hts & Hn).
  rewrite T1, T2, T3, Hn.
  destruct Hc as (C1 & C2 & C3 & C4 & C5 & C6 & C7 & C8).
  unfold constants_kept.
  destruct increase; cbn in *; repeat split; assumption.
Qed.

Lemma reset_inv (s s' : Simulation.t) (mass_0 mass_1 v_1 : Qc) :
  Simulation.reset s mass_0 mass_1 v_1 = Ok s' ->
  same_tuning s s'
  /\ Simulation.simplify_counter s' = 0
  /\ Block2D.size (Simulation.block_0 s') = Fraction.of_int 30
  /\ Block2D.size (Simulation.block_1 s') = Fraction.of_int 60
  /\ Fraction.limit_denominator mass_0 (10 ^ 9)
     = Ok (Block2D.mass (Simulation.block_0 s'))
  /\ Fraction.limit_denominator mass_1 (10 ^ 9)
     = Ok (Block2D.mass (Simulation.block_1 s')).
Proof.
  intros H.
  destruct (reset_Ok s mass_0 mass_1 v_1)
    as (b0 & b1 & e & m & Hb0 & Hb1 & _ & _ & Hr).
  rewrite Hr in H. injection H as <-.
  destruct (Block2D_init_Ok mass_0 (Fraction.of_int 0) (Fraction.of_int 150)
              (Fraction.of_int 30)) as (b0' & Hb0' & Hm0 & _ & _ & Hs0).
  destruct (Block2D_init_Ok mass_1 v_1 (Fraction.of_int 600)
              (Fraction.of_int 60)) as (b1' & Hb1' & Hm1 & _ & _ & Hs1).
  rewrite Hb0 in Hb0'. injection Hb0' as <-.
  rewrite Hb1 in Hb1'. injection Hb1' as <-.
  rewrite limit_denominator_of_int in Hs0, Hs1 by exact cap_legal.
  injection Hs0 as Hs0. injection Hs1 as Hs1.
  unfold same_tuning. cbn. repeat split; auto.
Qed.

Lemma perform_tuning_in_range (c : call) (s s' : Simulation.t) :
  tuning_in_range s -> perform c s = Ok s' -> tuning_in_range s'.
Proof.
  unfold tuning_in_range. intros [Hd Hv] H. destruct c; cbn in H.
  - destruct (update_kept s s' H) as (_ & (-> & -> & _) & _). now split.
  - destruct (reset_inv s s' _ _ _ H) as ((_ & _ & <- & _ & <- & _) & _).
    now split.
  - injection H as <-. split; [destruct increase; exact Hd|].
    destruct increase.
    + rewrite speed_after_increase. lia.
    + rewrite speed_after_decrease.
      assert (Simulation.simulation_speed s / 2 <= Simulation.simulation_speed s)
        by (apply Z.div_le_upper_bound; lia).
      lia.
  - destruct (adjust_precision_kept s s' increase H) as (_ & -> & _ & _ & -> & _).
    split; [|exact Hv]. destruct increase.
    + lia.
    + assert (Simulation.simplify_denominator s / 10 <= Simulation.simplify_denominator s)
        by (apply Z.div_le_upper_bound; lia).
      lia.
  - injection H as <-. now split.
Qed.

(** X17: along every sequence of calls, resets included, a cap within
    [10**3, 10**12] and a speed within [1, 100000] stay within these
    bounds; the constructor sets them so. *)
Theorem tuning_stays_in_range (cs : list call) :
  (forall width, exists s0,
        Simulation.init width = Ok s0 /\ tuning_in_range s0)
  /\ (forall s s', tuning_in_range s -> run cs s = Ok s' -> tuning_in_range s').
Proof.
  split.
  - intros width. eexists. split; [reflexivity|]. split; by_computation.
  - induction cs as [|c cs IH]; intros s s' Hs H; cbn in H.
    + injection H as <-. exact Hs.
    + apply bind_Ok in H. destruct H as (s1 & H1 & H).
      exact (IH s1 s' (perform_tuning_in_range c s s1 Hs H1) H).
Qed.

Lemma initial_tuning_in_range : tuning_in_range initial_state.
Proof. split; by_computation. Qed.

Lemma tuning_stays_in_range_witness :
  exists s',
    run [AdjustPrecision true; AdjustSpeed true; Update; AdjustPrecision false]
        initial_state = Ok s'
    /\ tuning_in_range s'.
Proof.
  destruct (run_total
              [AdjustPrecision true; AdjustSpeed true; Update; AdjustPrecision false]
              initial_state eq_refl initial_state_well_formed) as (s' & H & _).
  exists s'. split; [exact H|].
  exact (proj2 (tuning_stays_in_range _) initial_state s'
           initial_tuning_in_range H).
Defined.




Lemma time_step_capped (cap : Z) (ts : Qc) :
  10 ^ 3 <= cap ->
  Fraction.limit_denominator (Fraction.make 1 100) cap = Ok ts ->
  ts = Fraction.make 1 100.
Proof.
  intros Hc H. rewrite limit_denominator_small in H.
  - now injection H.
  - lia.
  - change (Fraction.denominator (Fraction.make 1 100)) with 100. lia.
Qed.

Lemma perform_built_constants (c : call) (s s' : Simulation.t) :
  tuning_in_range s -> built_constants s -> perform c s = Ok s' ->
  built_constants s'.
Proof.
  unfold built_constants. intros [Hd _] (S0 & S1 & Hts & Hi) H.
  destruct c; cbn in H.
  - destruct (update_kept s s' H)
      as ((_ & _ & -> & -> & _ & -> & _) & _ & Ht & _).
    repeat split; try assumption.
    destruct Ht as [->|Ht]; [exact Hts|].
    rewrite Hts in Ht. exact (time_step_capped _ _ (proj1 Hd) Ht).
  - destruct (reset_inv s s' _ _ _ H)
      as ((_ & <- & _ & <- & _) & _ & -> & -> & _).
    repeat split; assumption.
  - injection H as <-. destruct increase; repeat split; assumption.
  - destruct (adjust_precision_kept s s' increase H)
      as ((_ & _ & -> & -> & _ & -> & _) & _ & _ & _ & Hd' & Ht).
    repeat split; try assumption.
    rewrite Hts in Ht. refine (time_step_capped _ _ _ Ht).
    rewrite Hd'. destruct increase; lia.
  - injection H as <-. repeat split; assumption.
Qed.

(** X19: on the simulation the constructor builds, every sequence of calls
    leaves the sizes of the blocks at 30 and 60, the simplification interval
    at 100 and the time step at exactly 1/100: no cap the precision can
    reach rounds the time step. *)
Theorem built_constants_invariant (width : Z) (cs : list call) :
  forall s0 s',
    Simulation.init width = Ok s0 -> run cs s0 = Ok s' -> built_constants s'.
Proof.
  intros s0 s' H0.
  assert (Hb : built_constants s0 /\ tuning_in_range s0).
  { cbv [Simulation.init] in H0. cbn in H0. injection H0 as <-.
    split; [repeat split|split; by_computation]. }
  clear H0. destruct Hb as [Hb Ht]. revert s0 Hb Ht.
  induction cs as [|c cs IH]; intros s Hb Ht H; cbn in H.
  - injection H as <-. exact Hb.
  - apply bind_Ok in H. destruct H as (s1 & H1 & H).
    exact (IH s1 (perform_built_constants c s s1 Ht Hb H1)
              (perform_tuning_in_range c s s1 Ht H1) H).
Qed.

Lemma built_constants_invariant_witness :
  exists s',
    run [AdjustPrecision false; Update; Update] initial_state = Ok s'
    /\ built_constants s'.
Proof.
  destruct (run_total [AdjustPrecision false; Update; Update]
              initial_state eq_refl initial_state_well_formed) as (s' & H & _).
  exists s'. split; [exact H|].
  exact (built_constants_invariant 1200 _ initial_state s' init_1200 H).
Defined.

(** ** Runs that raise nothing *)

Lemma limit_denominator_positive (x y : Qc) :
  (Fraction.of_int 1 <= x)%Qc ->
  Fraction.limit_denominator x (10 ^ 9) = Ok y ->
  (0 < y)%Qc.
Proof.
  intros Hx H. apply limit_denominator_error in H. destruct H as [H _].
  unfold tolerance, Fraction.make, Fraction.of_int in *.
  change (Z.to_pos (2 * 10 ^ 9)) with 2000000000%positive in H.
  qc_to_q. unfold inject_Z in *. lra.
Qed.

Lemma positive_well_formed (s : Simulation.t) :
  masses_positive s -> tuning_in_range s -> well_formed s.
Proof.
  intros [H0 H1] [[Hd _] _]. split; [|lia].
  apply not_eq_sym, Qclt_not_eq, Qcplus_pos; assumption.
Qed.

Lemma kept_masses_positive (s s' : Simulation.t) :
  constants_kept s s' -> masses_positive s -> masses_positive s'.
Proof.
  intros (C0 & C1 & _) [H0 H1]. unfold masses_positive.
  rewrite C0, C1. now split.
Qed.

Lemma perform_safe (c : call) (s : Simulation.t) :
  masses_positive s -> tuning_in_range s -> masses_at_least_1 c ->
  exists s', perform c s = Ok s' /\ masses_positive s' /\ tuning_in_range s'.
Proof.
  intros Hm Ht Hc.
  assert (Hwf : well_formed s) by exact (positive_well_formed s Hm Ht).
  assert (Hret : exists s', perform c s = Ok s').
  { destruct c.
    - destruct (update_total s Hwf) as (s' & H & _). eauto.
    - cbn. destruct (reset_Ok s mass_0 mass_1 v_1)
        as (b0 & b1 & e & m & _ & _ & _ & _ & Hr). eauto.
    - cbn. eauto.
    - destruct (perform_total (AdjustPrecision increase) s eq_refl Hwf)
        as (s' & H & _). eauto.
    - cbn. eauto. }
  destruct Hret as [s' H]. exists s'. split; [exact H|].
  split; [|exact (perform_tuning_in_range c s s' Ht H)].
  destruct c; cbn in H.
  - exact (kept_masses_positive s s' (proj1 (update_kept s s' H)) Hm).
  - destruct (reset_inv s s' _ _ _ H) as (_ & _ & _ & _ & H0 & H1).
    destruct Hc as [Hc0 Hc1]. split.
    + exact (limit_denominator_positive _ _ Hc0 H0).
    + exact (limit_denominator_positive _ _ Hc1 H1).
  - injection H as <-. destruct increase; exact Hm.
  - exact (kept_masses_positive s s'
             (proj1 (adjust_precision_kept s s' increase H)) Hm).
  - injection H as <-. exact Hm.
Qed.

(** X20: the simulation the constructor builds has positive masses and
    tunables within their bounds, and from any such state a sequence of calls
    whose resets pass rational masses of at least 1 raises nothing and keeps
    both masses positive: no division by zero, no illegal cap. *)
Theorem heavy_runs_never_raise (cs : list call) :
  (forall width, exists s0,
        Simulation.init width = Ok s0
        /\ masses_positive s0 /\ tuning_in_range s0)
  /\ (forall s,
         masses_positive s -> tuning_in_range s -> Forall masses_at_least_1 cs ->
         exists s', run cs s = Ok s' /\ masses_positive s' /\ tuning_in_range s').
Proof.
  split.
  - intros width. eexists. split; [reflexivity|].
    split; split; by_computation.
  - induction cs as [|c cs IH]; intros s Hm Ht Hcs.
    + exists s. split; [reflexivity|]. split; assumption.
    + inversion Hcs as [|c' cs' Hc Hcs' E]. subst.
      destruct (perform_safe c s Hm Ht Hc) as (s1 & H1 & Hm1 & Ht1).
      cbn [run]. rewrite H1. cbn [bind].
      exact (IH s1 Hm1 Ht1 Hcs').
Qed.

Lemma heavy_runs_never_raise_witness :
  exists s',
    run [Reset (Fraction.of_int 1) (Fraction.of_int 100) (Fraction.of_int (-1));
         Update; AdjustPrecision false; Update] initial_state = Ok s'
    /\ masses_positive s' /\ tuning_in_range s'.
Proof.
  apply (proj2 (heavy_runs_never_raise _) initial_state).
  - exact initial_masses_positive.
  - exact initial_tuning_in_range.
  - repeat constructor; by_computation.
Defined.

(** ** Runs without a reset *)

Lemma perform_constants_kept (c : call) (s s' : Simulation.t) :
  is_reset c = false -> perform c s = Ok s' -> constants_kept s s'.
Proof.
  intros Hc H. destruct c; cbn in H; try discriminate Hc.
  - exact (proj1 (update_kept s s' H)).
  - injection H as <-. unfold constants_kept. destruct increase; repeat split.
  - exact (proj1 (adjust_precision_kept s s' increase H)).
  - injection H as <-. unfold constants_kept. repeat split.
Qed.

(** X21: a sequence of calls without a reset never changes the masses and
    sizes of the blocks, the width, the simplification interval and the
    initial energy and momentum; so the mass ratio stays what it was. *)
Theorem reset_free_runs_keep_constants (cs : list call) (s s' : Simulation.t) :
  forallb (fun c => negb (is_reset c)) cs = true ->
  run cs s = Ok s' ->
  constants_kept s s' /\ Simulation.mass_ratio s' = Simulation.mass_ratio s.
Proof.
  intros Hcs H.
  assert (Hk : constants_kept s s').
  { revert s Hcs H. induction cs as [|c cs IH]; intros s Hcs H; cbn in H, Hcs.
    - injection H as <-. apply constants_kept_refl.
    - apply andb_true_iff in Hcs. destruct Hcs as [Hc Hcs].
      apply negb_true_iff in Hc.
      apply bind_Ok in H. destruct H as (s1 & H1 & H).
      exact (constants_kept_trans s s1 s'
               (perform_constants_kept c s s1 Hc H1) (IH s1 Hcs H)). }
  split; [exact Hk|].
  destruct Hk as (C0 & C1 & _). unfold Simulation.mass_ratio.
  now rewrite C0, C1.
Qed.

Lemma reset_free_runs_keep_constants_witness :
  exists s',
    run [Update; AdjustPrecision false; AdjustSpeed true; TogglePause; Update]
        initial_state = Ok s'
    /\ constants_kept initial_state s'
    /\ Simulation.mass_ratio s' = Simulation.mass_ratio initial_state.
Proof.
  destruct (run_total
              [Update; AdjustPrecision false; AdjustSpeed true; TogglePause; Update]
              initial_state eq_refl initial_state_well_formed) as (s' & H & _).
  exists s'. split; [exact H|].
  exact (reset_free_runs_keep_constants
           [Update; AdjustPrecision false; AdjustSpeed true; TogglePause; Update]
           initial_state s' eq_refl H).
Defined.

(** ** Reset, again *)

(** X22: a reset reads nothing of the old state but the width, the time
    step and the tunables (speed, interval, cap, pause flag): on two states
    that agree on these it returns the same state; so resetting again with
    the same arguments changes nothing. *)
Theorem reset_forgets_old_state (s1 s2 : Simulation.t) (mass_0 mass_1 v_1 : Qc) :
  (same_tuning s1 s2 ->
   Simulation.reset s1 mass_0 mass_1 v_1 = Simulation.reset s2 mass_0 mass_1 v_1)
  /\ (forall s', Simulation.reset s1 mass_0 mass_1 v_1 = Ok s' ->
                 Simulation.reset s' mass_0 mass_1 v_1 = Ok s').
Proof.
  assert (Hsame : forall t1 t2, same_tuning t1 t2 ->
                    Simulation.reset t1 mass_0 mass_1 v_1
                    = Simulation.reset t2 mass_0 mass_1 v_1).
  { intros t1 t2 (E1 & E2 & E3 & E4 & E5 & E6).
    destruct (reset_Ok t1 mass_0 mass_1 v_1)
      as (b0 & b1 & e & m & Hb0 & Hb1 & He & Hm & ->).
    destruct (reset_Ok t2 mass_0 mass_1 v_1)
      as (b0' & b1' & e' & m' & Hb0' & Hb1' & He' & Hm' & ->).
    rewrite Hb0 in Hb0'. injection Hb0' as <-.
    rewrite Hb1 in Hb1'. injection Hb1' as <-.
    rewrite He in He'. injection He' as <-.
    rewrite Hm in Hm'. injection Hm' as <-.
    now rewrite E1, E2, E3, E4, E5, E6. }
  split; [apply Hsame|].
  intros s' H. rewrite <- H. symmetry. apply Hsame.
  exact (proj1 (reset_inv s1 s' _ _ _ H)).
Qed.

Lemma reset_forgets_old_state_witness :
  Simulation.reset initial_state (Fraction.of_int 1) (Fraction.of_int 100)
                   (Fraction.of_int (-1))
  = Simulation.reset at_wall_0 (Fraction.of_int 1) (Fraction.of_int 100)
                     (Fraction.of_int (-1)).
Proof.
  apply (reset_forgets_old_state initial_state at_wall_0).
  repeat split.
Defined.

(** ** Frames *)

Lemma updates_bound (n : nat) :
  forall s,
    well_formed s ->
    exists s',
      updates n s = Ok s' /\ well_formed s'
      /\ Simulation.total_collisions s <= Simulation.total_collisions s'
         <= Simulation.total_collisions s + Z.of_nat n
      /\ tuning_kept s s' /\ constants_kept s s'.
Proof.
  induction n as [|n IH]; intros s Hwf.
  - exists s. split; [reflexivity|]. split; [exact Hwf|]. split; [lia|].
    split; [apply tuning_kept_refl|apply constants_kept_refl].
  - destruct (update_total s Hwf) as (s1 & H1 & Hwf1).
    destruct (IH s1 Hwf1) as (s' & H & Hwf' & Hb & Ht & Hc).
    exists s'. cbn [updates]. rewrite H1. cbn [bind].
    split; [exact H|]. split; [exact Hwf'|].
    destruct (update_kept s s1 H1) as (Hc1 & Ht1 & _).
    split; [|split; [exact (tuning_kept_trans _ _ _ Ht1 Ht)
                    |exact (constants_kept_trans _ _ _ Hc1 Hc)]].
    destruct (update_counters s s1 H1) as [(E & _)|(E & _)]; lia.
Qed.

(** X23: on a well-formed state the updates of one frame raise nothing,
    count at most [simulation_speed] collisions (none for a speed below 1),
    and leave the speed, the cap, the pause flag, the masses and the sizes as
    they were. *)
Theorem frame_collision_bound (s : Simulation.t) :
  well_formed s ->
  exists s',
    frame s = Ok s'
    /\ well_formed s'
    /\ Simulation.total_collisions s <= Simulation.total_collisions s'
       <= Simulation.total_collisions s + Z.max 0 (Simulation.simulation_speed s)
    /\ tuning_kept s s' /\ constants_kept s s'.
Proof.
  intros Hwf. unfold frame.
  destruct (updates_bound (Z.to_nat (Simulation.simulation_speed s)) s Hwf)
    as (s' & H & Hwf' & Hb & Ht & Hc).
  exists s'. split; [exact H|]. split; [exact Hwf'|].
  split; [lia|]. split; assumption.
Qed.

Lemma frame_collision_bound_witness :
  exists s',
    frame initial_state = Ok s'
    /\ well_formed s'
    /\ Simulation.total_collisions initial_state <= Simulation.total_collisions s'
       <= Simulation.total_collisions initial_state
          + Z.max 0 (Simulation.simulation_speed initial_state)
    /\ tuning_kept initial_state s' /\ constants_kept initial_state s'.
Proof.
  exact (frame_collision_bound initial_state initial_state_well_formed).
Defined.

(** ** The cached totals, again *)

(** X24: right after a collision is resolved the cached energy and momentum
    are within [1 / (2 * 10**9)] of the exact energy and momentum of the
    blocks. *)
Theorem cached_totals_accuracy (c : collision) (s s' : Simulation.t) :
  Simulation.handle_collision c s = Ok s' ->
  let energy := Simulation.energy_of (Simulation.block_0 s') (Simulation.block_1 s') in
  let momentum := Simulation.momentum_of (Simulation.block_0 s') (Simulation.block_1 s') in
  (energy - Simulation.total_energy s' <= tolerance (10 ^ 9))%Qc
  /\ (Simulation.total_energy s' - energy <= tolerance (10 ^ 9))%Qc
  /\ (momentum - Simulation.total_momentum s' <= tolerance (10 ^ 9))%Qc
  /\ (Simulation.total_momentum s' - momentum <= tolerance (10 ^ 9))%Qc.
Proof.
  intros H. cbv zeta. apply handle_collision_Ok in H.
  destruct H as (r & _ & e & m & He & Hm & ->). cbn.
  apply limit_denominator_error in He, Hm.
  destruct He as [He1 He2], Hm as [Hm1 Hm2]. repeat split; assumption.
Qed.

Lemma cached_totals_accuracy_witness :
  exists s',
    Simulation.handle_collision blocks overlapping = Ok s'
    /\ (Simulation.energy_of (Simulation.block_0 s') (Simulation.block_1 s')
        - Simulation.total_energy s' <= tolerance (10 ^ 9))%Qc.
Proof.
  destruct (handle_collision_total blocks overlapping overlapping_well_formed)
    as (s' & H & _).
  exists s'. split; [exact H|].
  exact (proj1 (cached_totals_accuracy blocks overlapping s' H)).
Defined.


